(** * Scratch-ticket expected-value engines

    A shallow embedding of the two estimation engines of the repository,
    [computeEV] of script.js (single game) and [computeOverview] with
    [renderTable] of scratchers.js (multi-game overview), followed by the
    properties the specification states about them.

    - JavaScript numbers are IEEE 754 binary64 values. They are Rocq's
      primitive [float]: the same operations, rounded to nearest, ties to
      even, specified by [FloatAxioms] over [SpecFloat]. There is one
      [NaN], as in JavaScript, and [0] differs from [-0].
    - Arrays are lists. [Array.prototype.sort] is a stable insertion sort
      driven by the sign of the comparator.
    - [computeEV] writes into the tiers of the game it is given; it is a
      function from the game to the outcome and the game as it is left.
    - The functions of the host that the engines call, [parseFloat],
      [parseInt] and the locale formatting behind [formatNum], are
      parameters. Strings are taken over ASCII.
    - The DOM is left out: [collectManualInput] starts from the values of
      the form, [renderTable] ends at the rows it appends. *)

From Stdlib Require Import ZArith List Bool String Ascii Lia Floats Permutation Sorted.
From Stdlib Require Uint63.
Import ListNotations.

Local Open Scope float_scope.

(** ** JavaScript number primitives *)

Module JS.

(** [isNaN(x)] for a number [x]. *)
Definition isNaN (x : float) : bool := is_nan x.

(** Truthiness of a number: everything but [0], [-0] and [NaN]. *)
Definition truthy (x : float) : bool := negb (is_nan x || is_zero x).

(** [x > y], [x < y], [x <= y]: false as soon as one side is [NaN]. *)
Definition gt (x y : float) : bool := y <? x.
Definition lt (x y : float) : bool := x <? y.
Definition le (x y : float) : bool := x <=? y.

(** [x === y] and [x !== y] on numbers. *)
Definition seq (x y : float) : bool := x =? y.
Definition sne (x y : float) : bool := negb (x =? y).

(** [a || b] on numbers. *)
Definition or (a b : float) : float := if truthy a then a else b.

(** [Array.prototype.sort(cmp)]: a stable sort; [cmp a b > 0] puts [b]
    first, every other outcome ([< 0], [0], [NaN]) leaves [a] first. *)
Section Sort.
Context {A : Type} (cmp : A -> A -> float).

Fixpoint insert (x : A) (l : list A) : list A :=
  match l with
  | [] => [x]
  | y :: l' => if gt (cmp x y) 0 then y :: insert x l' else x :: l
  end.

Definition sort (l : list A) : list A := fold_right insert [] l.
End Sort.

(** The number of a length ([Qs.length] used in arithmetic). Array lengths
    are below [2^32], where the conversion is exact. *)
Definition ofNat (n : nat) : float := of_uint63 (Uint63.of_Z (Z.of_nat n)).

(** *** Strings

    Strings are taken over ASCII: white space is the ASCII white space
    of [\s], and case folding is that of the ASCII letters. *)

Definition isSpace (c : ascii) : bool :=
  let n := nat_of_ascii c in
  Nat.eqb n 32 || (Nat.leb 9 n && Nat.leb n 13).

Definition isDigit (c : ascii) : bool :=
  let n := nat_of_ascii c in Nat.leb 48 n && Nat.leb n 57.

Definition lower (c : ascii) : ascii :=
  let n := nat_of_ascii c in
  if Nat.leb 65 n && Nat.leb n 90 then ascii_of_nat (n + 32) else c.

Fixpoint toLowerCase (s : string) : string :=
  match s with
  | EmptyString => EmptyString
  | String c r => String (lower c) (toLowerCase r)
  end.

Fixpoint trimStart (s : string) : string :=
  match s with
  | EmptyString => EmptyString
  | String c r => if isSpace c then trimStart r else s
  end.

Fixpoint rev (s : string) : string :=
  match s with
  | EmptyString => EmptyString
  | String c r => (rev r ++ String c EmptyString)%string
  end.

Definition trim (s : string) : string := rev (trimStart (rev (trimStart s))).

(** [s.includes(sub)] *)
Fixpoint includes (sub s : string) : bool :=
  String.prefix sub s ||
  match s with
  | EmptyString => false
  | String _ r => includes sub r
  end.

(** [s.replace(/[$,\s]/g, '')] *)
Fixpoint stripCurrency (s : string) : string :=
  match s with
  | EmptyString => EmptyString
  | String c r =>
      if Ascii.eqb c "$" || Ascii.eqb c "," || isSpace c
      then stripCurrency r else String c (stripCurrency r)
  end.

(** The longest prefix in [[\d,.]]. *)
Fixpoint takeNumber (s : string) : string :=
  match s with
  | EmptyString => EmptyString
  | String c r =>
      if isDigit c || Ascii.eqb c "," || Ascii.eqb c "."
      then String c (takeNumber r) else EmptyString
  end.

(** [\s+] followed by the rest: the rest after at least one white space. *)
Definition spaces (s : string) : option string :=
  match s with
  | String c r => if isSpace c then Some (trimStart r) else None
  | EmptyString => None
  end.

(** [/1\s+in\s+([\d,.]+)/i] anchored at the head of [s]: the group. *)
Definition oddsAt (s : string) : option string :=
  match s with
  | String "1" r =>
      match spaces r with
      | Some (String i (String n r')) =>
          if Ascii.eqb (lower i) "i" && Ascii.eqb (lower n) "n" then
            match spaces r' with
            | Some r'' =>
                match takeNumber r'' with
                | EmptyString => None
                | g => Some g
                end
            | None => None
            end
          else None
      | _ => None
      end
  | _ => None
  end.

(** [s.match(/1\s+in\s+([\d,.]+)/i)]: the group of the leftmost match. *)
Fixpoint matchOdds (s : string) : option string :=
  match oddsAt s with
  | Some g => Some g
  | None =>
      match s with
      | EmptyString => None
      | String _ r => matchOdds r
      end
  end.

(** A value that is a number, a string, or missing ([undefined], [null]). *)
Inductive value :=
| Undefined
| Num (x : float)
| Str (s : string).

(** Truthiness of such a value. *)
Definition truthyValue (v : value) : bool :=
  match v with
  | Undefined => false
  | Num x => truthy x
  | Str s => negb (String.eqb s EmptyString)
  end.

End JS.

(** ** script.js: the single-game calculator *)

Module Script.

(** A prize tier as [collectManualInput] and [parseCalotteryHtml] build
    it. A ticket tier is created with [value = NaN]. *)
Module Tier.
Record t := mk {
  prize : string;
  value : float;
  isTicket : bool;
  odds : float;
  remaining : float;
  total : float
}.
Definition setValue (x : t) (v : float) : t :=
  mk (prize x) v (isTicket x) (odds x) (remaining x) (total x).
End Tier.

Module Game.
Record t := mk {
  name : string;
  number : string;
  ticketPrice : float;
  claimedOdds : string;
  claimedCashOdds : string;
  tiers : list Tier.t
}.
Definition setTiers (g : t) (ts : list Tier.t) : t :=
  mk (name g) (number g) (ticketPrice g) (claimedOdds g) (claimedCashOdds g) ts.
End Game.

Module Options.
Record t := mk {
  ignoreUnder500 : bool;
  applyTax : bool;
  taxRate : float
}.
End Options.

Module TierResult.
Record t := mk {
  prize : string;
  value : float;
  oddsText : string;
  remaining : float;
  total : float;
  parsedN : float;
  tierTicketEst : float;
  probability : float;
  adjustedValue : float;
  evContribution : float;
  isTicket : bool
}.
End TierResult.

Module EVResult.
Record t := mk {
  ticketPrice : float;
  M : float;
  method : string;
  evGross : float;
  evNet : float;
  tiers : list TierResult.t
}.
End EVResult.

(** What [computeEV] returns: the object [{ error }] or the result object. *)
Inductive Outcome :=
| Error (error : string)
| Result (r : EVResult.t).

Definition MissingPrecondition : string :=
  "Need ticket price and at least one prize tier.".
Definition EstimationFailure : string :=
  "Unable to estimate total remaining tickets.".
Definition TicketAnchor : string := "Ticket-tier anchor".
Definition MedianFallback : string := "Median fallback".

(** [for (const t of tiers) if (t.isTicket) t.value = ticketPrice;]
    The loop writes into the tier objects of the game. *)
Definition resolveTicketValues (ticketPrice : float) (tiers : list Tier.t) : list Tier.t :=
  map (fun t => if Tier.isTicket t then Tier.setValue t ticketPrice else t) tiers.

(** The predicate of [tiers.find] in method A. *)
Definition usableAnchor (t : Tier.t) : bool :=
  Tier.isTicket t && JS.gt (Tier.total t) 0 && JS.gt (Tier.remaining t) 0
    && negb (JS.isNaN (Tier.odds t)).

(** The value of [M] is [null] ([None]) or a number. *)
Definition PoolState : Type := option float * string.

(** Method A: ticket-tier anchor. *)
Definition methodA (tiers : list Tier.t) : PoolState :=
  match find usableAnchor tiers with
  | Some ticketTier =>
      let M0 := Tier.total ticketTier * Tier.odds ticketTier in
      let f := Tier.remaining ticketTier / Tier.total ticketTier in
      (Some (M0 * f), TicketAnchor)
  | None => (None, EmptyString)
  end.

(** [!M || M <= 0] *)
Definition notPositive (M : option float) : bool :=
  match M with
  | None => true
  | Some m => negb (JS.truthy m) || JS.le m 0
  end.

(** The predicate of [tiers.filter] in method B. *)
Definition usableEstimate (t : Tier.t) : bool :=
  JS.gt (Tier.remaining t) 0 && negb (JS.isNaN (Tier.odds t)) && JS.gt (Tier.odds t) 0.

Definition tierEstimates (tiers : list Tier.t) : list float :=
  map (fun t => Tier.remaining t * Tier.odds t) (filter usableEstimate tiers).

(** The middle of the sorted estimates, as method B takes it. *)
Definition middle (estimates : list float) : float :=
  let mid := Nat.div (List.length estimates) 2 in
  if Nat.eqb (Nat.modulo (List.length estimates) 2) 0
  then (nth (mid - 1) estimates nan + nth mid estimates nan) / 2
  else nth mid estimates nan.

(** Method B fallback: median of tier-implied ticket counts. *)
Definition methodB (tiers : list Tier.t) (st : PoolState) : PoolState :=
  if notPositive (fst st) then
    let estimates := tierEstimates tiers in
    if Nat.ltb 0 (List.length estimates) then
      let estimates := JS.sort (fun a b => a - b) estimates in
      (Some (middle estimates), MedianFallback)
    else st
  else st.

(** The pool estimator: lines "Estimate total remaining tickets (M)". *)
Definition estimatePool (tiers : list Tier.t) : PoolState :=
  methodB tiers (methodA tiers).

(** The form [collectManualInput] reads: the values of its inputs. *)
Module Row.
Record t := mk {
  prize : string;
  odds : string;
  remaining : string;
  total : string
}.
End Row.

Module Form.
Record t := mk {
  gameName : string;
  gameNumber : string;
  ticketPrice : string;
  claimedOdds : string;
  claimedCashOdds : string;
  rows : list Row.t
}.
End Form.

Section Engine.

(** [formatNum] renders through the host's [toLocaleString]; it is a
    parameter of the development. *)
Variable formatNum : float -> string.

(** The host's [parseFloat] and [parseInt(_, 10)]. *)
Variable parseFloat : string -> float.
Variable parseInt : string -> float.

Definition parseCurrency (str : JS.value) : float :=
  match str with
  | JS.Num x => x
  | JS.Undefined => nan
  | JS.Str s =>
      if negb (JS.truthyValue str) then nan
      else let cleaned := JS.stripCurrency s in parseFloat cleaned
  end.

Definition parseOdds (str : JS.value) : float :=
  match str with
  | JS.Num x => x
  | JS.Undefined => nan
  | JS.Str s0 =>
      if negb (JS.truthyValue str) then nan
      else
        let s := JS.trim s0 in
        match JS.matchOdds s with
        | Some m1 => parseCurrency (JS.Str m1)
        | None => parseCurrency (JS.Str s)
        end
  end.

Definition isTicketTier (prizeLabel : string) : bool :=
  let s := JS.toLowerCase (JS.trim prizeLabel) in
  String.eqb s "ticket" || String.eqb s "free ticket" || JS.includes "free ticket" s.

(** The body of the loop over the tier rows: [None] is [continue]. *)
Definition collectRow (row : Row.t) : option Tier.t :=
  let prizeText := JS.trim (Row.prize row) in
  let oddsText := JS.trim (Row.odds row) in
  let remaining := parseInt (Row.remaining row) in
  let total := parseInt (Row.total row) in
  if negb (JS.truthyValue (JS.Str prizeText)) || JS.isNaN remaining then None
  else Some {|
    Tier.prize := prizeText;
    Tier.value := if isTicketTier prizeText then nan else parseCurrency (JS.Str prizeText);
    Tier.isTicket := isTicketTier prizeText;
    Tier.odds := parseOdds (JS.Str oddsText);
    Tier.remaining := remaining;
    Tier.total := if JS.isNaN total then remaining else total |}.

Fixpoint collectRows (rows : list Row.t) : list Tier.t :=
  match rows with
  | [] => []
  | row :: rows' =>
      match collectRow row with
      | Some t => t :: collectRows rows'
      | None => collectRows rows'
      end
  end.

Definition collectManualInput (form : Form.t) : Game.t :=
  {| Game.name := JS.trim (Form.gameName form);
     Game.number := JS.trim (Form.gameNumber form);
     Game.ticketPrice := JS.or (parseFloat (Form.ticketPrice form)) 0;
     Game.claimedOdds := JS.trim (Form.claimedOdds form);
     Game.claimedCashOdds := JS.trim (Form.claimedCashOdds form);
     Game.tiers := collectRows (Form.rows form) |}.

(** The adjusted value of a tier: the two [if]s of the loop body. *)
Definition adjust (ignore500 doTax : bool) (taxRate : float) (t : Tier.t) : float :=
  let adjusted := Tier.value t in
  let adjusted :=
    if ignore500 && negb (Tier.isTicket t) && JS.gt adjusted 0 && JS.lt adjusted 500
    then 0 else adjusted in
  let adjusted :=
    if doTax && negb (Tier.isTicket t) && JS.gt adjusted 0
    then adjusted * (1 - taxRate / 100) else adjusted in
  adjusted.

(** One iteration of [for (const t of tiers)]. *)
Definition tierResult (ignore500 doTax : bool) (taxRate M : float) (t : Tier.t)
  : TierResult.t :=
  let p := Tier.remaining t / M in
  let adjusted := adjust ignore500 doTax taxRate t in
  let contribution := p * adjusted in
  {| TierResult.prize := Tier.prize t;
     TierResult.value := Tier.value t;
     TierResult.oddsText :=
       if JS.truthy (Tier.odds t)
       then ("1 in " ++ formatNum (Tier.odds t))%string else "—"%string;
     TierResult.remaining := Tier.remaining t;
     TierResult.total := Tier.total t;
     TierResult.parsedN := Tier.odds t;
     TierResult.tierTicketEst := Tier.remaining t * JS.or (Tier.odds t) 0;
     TierResult.probability := p;
     TierResult.adjustedValue := adjusted;
     TierResult.evContribution := contribution;
     TierResult.isTicket := Tier.isTicket t |}.

Definition tierLoop (ignore500 doTax : bool) (taxRate M : float)
    (acc : list TierResult.t * float) (t : Tier.t) : list TierResult.t * float :=
  let r := tierResult ignore500 doTax taxRate M t in
  (fst acc ++ [r], snd acc + TierResult.evContribution r).

(** [computeEV(game, options)]. The second component is the game object
    after the call: its ticket tiers have their value resolved. *)
Definition computeEV (game : Game.t) (options : Options.t) : Outcome * Game.t :=
  let ignore500 := Options.ignoreUnder500 options in
  let doTax := Options.applyTax options in
  let taxRate := Options.taxRate options in
  let ticketPrice := Game.ticketPrice game in
  let tiers := Game.tiers game in
  if negb (JS.truthy ticketPrice) || Nat.eqb (List.length tiers) 0 then
    (Error MissingPrecondition, game)
  else
    let tiers := resolveTicketValues ticketPrice tiers in
    let game := Game.setTiers game tiers in
    let '(M, method) := estimatePool tiers in
    match M with
    | None => (Error EstimationFailure, game)
    | Some M =>
        if notPositive (Some M) then (Error EstimationFailure, game)
        else
          let '(tierResults, evGross) :=
            fold_left (tierLoop ignore500 doTax taxRate M) tiers ([], 0) in
          let evNet := evGross - ticketPrice in
          (Result {| EVResult.ticketPrice := ticketPrice;
                     EVResult.M := M;
                     EVResult.method := method;
                     EVResult.evGross := evGross;
                     EVResult.evNet := evNet;
                     EVResult.tiers := tierResults |}, game)
    end.

End Engine.

End Script.

(** ** scratchers.js: the multi-game overview *)

Module Scratchers.

(** A tier of the pasted JSON. [value] and [odds] are numbers or text;
    the counts are numbers when present. *)
Module Tier.
Record t := mk {
  label : option string;
  prize : option string;
  value : JS.value;
  isTicket : bool;
  odds : JS.value;
  remaining : option float;
  total : option float;
  initial : option float
}.
End Tier.

(** A game of the pasted JSON; [number] and [claimedOdds] are text when
    present, as in [SAMPLE_DATA]. *)
Module Game.
Record t := mk {
  name : string;
  number : option string;
  price : option float;
  claimedOdds : option string;
  tiers : option (list Tier.t)
}.
End Game.

Module Options.
Record t := mk {
  ignoreUnder500 : bool;
  applyTax : bool;
  taxRate : float
}.
End Options.

(** The objects of [resolved]. *)
Module Resolved.
Record t := mk {
  label : string;
  rawValue : float;
  odds : float;
  remaining : float;
  total : float;
  isTicket : bool
}.
End Resolved.

(** The row [computeOverview] returns. *)
Module Overview.
Record t := mk {
  name : string;
  number : string;
  price : float;
  claimedOddsText : string;
  claimedOddsVal : float;
  calcOddsVal : float;
  claimedEV : float;
  calcEV : float;
  deltaPercent : float
}.
End Overview.

(** The columns a header click can select as [sortKey]. *)
Module SortKey.
Inductive t :=
| price | name | number | claimedOddsText | claimedOddsVal
| calcOddsVal | claimedEV | calcEV | deltaPercent.
End SortKey.

(** The module state: [gamesData], [sortKey], [sortDir]. *)
Module State.
Record t := mk {
  gamesData : list Game.t;
  sortKey : SortKey.t;
  sortDir : float
}.
(** The state the script starts in. *)
Definition initial : t := mk [] SortKey.calcEV 1.
End State.

(** [a || b] where [a] is an optional number. *)
Definition orNum (a : option float) (b : float) : float :=
  match a with
  | Some x => JS.or x b
  | None => b
  end.

(** [a || b] where [a] is an optional string. *)
Definition orStr (a : option string) (b : string) : string :=
  match a with
  | Some s => if JS.truthyValue (JS.Str s) then s else b
  | None => b
  end.

Definition ofOptStr (a : option string) : JS.value :=
  match a with
  | Some s => JS.Str s
  | None => JS.Undefined
  end.

Definition isTicketTier (val : string) : bool :=
  let s := JS.toLowerCase (JS.trim val) in
  String.eqb s "ticket" || String.eqb s "free ticket" || JS.includes "free ticket" s.

(** Value adjustments. *)
Definition adjustValue (value : float) (isTicket : bool) (options : Options.t) : float :=
  let a := value in
  let a :=
    if Options.ignoreUnder500 options && negb isTicket && JS.gt a 0 && JS.lt a 500
    then 0 else a in
  let a :=
    if Options.applyTax options && negb isTicket && JS.gt a 0
    then a * (1 - Options.taxRate options / 100) else a in
  a.

(** The predicate of [resolved.filter]. *)
Definition validTier (t : Resolved.t) : bool :=
  JS.gt (Resolved.total t) 0 && negb (JS.isNaN (Resolved.odds t))
    && JS.gt (Resolved.odds t) 0.

(** [Qs.reduce((a, b) => a + b, 0)] *)
Definition sum (l : list float) : float := fold_left (fun a b => a + b) l 0.

(** The two accumulating loops over [valid]. *)
Definition grossLoop (count : Resolved.t -> float) (options : Options.t)
    (valid : list Resolved.t) : float :=
  fold_left
    (fun gross t =>
       let adj := adjustValue (Resolved.rawValue t) (Resolved.isTicket t) options in
       gross + adj * count t)
    valid 0.

(** [EV delta %] *)
Definition delta (claimedNet calcNet : float) : float :=
  if JS.sne claimedNet 0
  then ((calcNet - claimedNet) / abs claimedNet) * 100
  else 0.

Section Engine.

(** The host's [parseFloat]. *)
Variable parseFloat : string -> float.

Definition parseCurrency (str : JS.value) : float :=
  match str with
  | JS.Num x => x
  | JS.Undefined => nan
  | JS.Str s =>
      if negb (JS.truthyValue str) then nan
      else parseFloat (JS.stripCurrency s)
  end.

Definition parseOdds (str : JS.value) : float :=
  match str with
  | JS.Num x => x
  | JS.Undefined => nan
  | JS.Str s =>
      if negb (JS.truthyValue str) then nan
      else
        match JS.matchOdds (JS.trim s) with
        | Some m1 => parseCurrency (JS.Str m1)
        | None => parseCurrency str
        end
  end.

(** The function mapped over [tiers] to resolve values. *)
Definition resolve (price : float) (t : Tier.t) : Resolved.t :=
  let label := orStr (Tier.label t) (orStr (Tier.prize t) EmptyString) in
  let isTkt := isTicketTier label || Tier.isTicket t in
  let rawValue := if isTkt then price else parseCurrency (Tier.value t) in
  let odds :=
    match Tier.odds t with
    | JS.Num x => x
    | o => parseOdds o
    end in
  let remaining := orNum (Tier.remaining t) 0 in
  let total := orNum (Tier.total t) (orNum (Tier.initial t) remaining) in
  {| Resolved.label := label;
     Resolved.rawValue := rawValue;
     Resolved.odds := odds;
     Resolved.remaining := remaining;
     Resolved.total := total;
     Resolved.isTicket := isTkt |}.

(** The tiers the engine computes with: [valid]. *)
Definition validTiers (price : float) (tiers : list Tier.t) : list Resolved.t :=
  filter validTier (map (resolve price) tiers).

(** [computeOverview(game, options)]; [None] is [null]. *)
Definition computeOverview (game : Game.t) (options : Options.t) : option Overview.t :=
  match Game.price game, Game.tiers game with
  | Some price, Some tiers =>
      if negb (JS.truthy price) || Nat.eqb (List.length tiers) 0 then None
      else
        let valid := validTiers price tiers in
        if Nat.eqb (List.length valid) 0 then None
        else
          let Qs := map (fun t => Resolved.odds t * Resolved.total t) valid in
          let M0 := sum Qs / JS.ofNat (List.length Qs) in
          let Tsum := fold_left (fun s t => s + Resolved.total t) valid 0 in
          let Rsum := fold_left (fun s t => s + Resolved.remaining t) valid 0 in
          if JS.seq Tsum 0 || JS.seq Rsum 0 || JS.seq M0 0 then None
          else
            let Mhat := M0 * (Rsum / Tsum) in
            let calcOddsVal := Mhat / Rsum in
            let claimedGross := grossLoop Resolved.total options valid in
            let claimedGross := claimedGross / M0 in
            let claimedNet := claimedGross - price in
            let calcGross := grossLoop Resolved.remaining options valid in
            let calcGross := calcGross / Mhat in
            let calcNet := calcGross - price in
            let deltaPercent := delta claimedNet calcNet in
            Some {| Overview.name := Game.name game;
                    Overview.number := orStr (Game.number game) EmptyString;
                    Overview.price := price;
                    Overview.claimedOddsText := orStr (Game.claimedOdds game) "—";
                    Overview.claimedOddsVal := parseOdds (ofOptStr (Game.claimedOdds game));
                    Overview.calcOddsVal := calcOddsVal;
                    Overview.claimedEV := claimedNet;
                    Overview.calcEV := calcNet;
                    Overview.deltaPercent := deltaPercent |}
  | _, _ => None
  end.

(** [gamesData.map((g) => computeOverview(g, options)).filter(Boolean)] *)
Fixpoint overviews (games : list Game.t) (options : Options.t) : list Overview.t :=
  match games with
  | [] => []
  | g :: games' =>
      match computeOverview g options with
      | Some r => r :: overviews games' options
      | None => overviews games' options
      end
  end.

(** [a[sortKey]], lower-cased when it is a string. *)
Definition sortValue (key : SortKey.t) (r : Overview.t) : JS.value :=
  match key with
  | SortKey.price => JS.Num (Overview.price r)
  | SortKey.name => JS.Str (JS.toLowerCase (Overview.name r))
  | SortKey.number => JS.Str (JS.toLowerCase (Overview.number r))
  | SortKey.claimedOddsText => JS.Str (JS.toLowerCase (Overview.claimedOddsText r))
  | SortKey.claimedOddsVal => JS.Num (Overview.claimedOddsVal r)
  | SortKey.calcOddsVal => JS.Num (Overview.calcOddsVal r)
  | SortKey.claimedEV => JS.Num (Overview.claimedEV r)
  | SortKey.calcEV => JS.Num (Overview.calcEV r)
  | SortKey.deltaPercent => JS.Num (Overview.deltaPercent r)
  end.

(** [va < vb] for two values of one column. *)
Definition less (va vb : JS.value) : bool :=
  match va, vb with
  | JS.Num x, JS.Num y => JS.lt x y
  | JS.Str s, JS.Str t => String.ltb s t
  | _, _ => false
  end.

(** The comparator of [results.sort]. *)
Definition compareRows (key : SortKey.t) (sortDir : float) (a b : Overview.t) : float :=
  let va := sortValue key a in
  let vb := sortValue key b in
  if less va vb then -1 * sortDir
  else if less vb va then 1 * sortDir
  else 0.

(** [renderTable()]: the rows in the order they are appended to the
    table body. *)
Definition renderTable (st : State.t) (options : Options.t) : list Overview.t :=
  let results := overviews (State.gamesData st) options in
  JS.sort (compareRows (State.sortKey st) (State.sortDir st)) results.

End Engine.

End Scratchers.

(** ** script.js: scraping, the form and the page *)

Module ScriptPage.
Import Script.

(** The longest prefix in [[\d,]] and what follows it. *)
Fixpoint spanCount (s : string) : string * string :=
  match s with
  | EmptyString => (EmptyString, EmptyString)
  | String c r =>
      if JS.isDigit c || Ascii.eqb c ","
      then let '(g, rest) := spanCount r in (String c g, rest)
      else (EmptyString, s)
  end.

(** [s.replace(/,/g, '')] *)
Fixpoint removeCommas (s : string) : string :=
  match s with
  | EmptyString => EmptyString
  | String c r => if Ascii.eqb c "," then removeCommas r else String c (removeCommas r)
  end.

(** [/([\d,]+)\s+of\s+([\d,]+)/i] anchored at the head of [s]: the two
    groups. A shorter first group is followed by a digit or a comma, never
    by white space, so the longest one decides. *)
Definition remainingAt (s : string) : option (string * string) :=
  match spanCount s with
  | (EmptyString, _) => None
  | (g1, rest) =>
      match JS.spaces rest with
      | Some (String o (String f rest')) =>
          if Ascii.eqb (JS.lower o) "o" && Ascii.eqb (JS.lower f) "f" then
            match JS.spaces rest' with
            | Some rest'' =>
                match fst (spanCount rest'') with
                | EmptyString => None
                | g2 => Some (g1, g2)
                end
            | None => None
            end
          else None
      | _ => None
      end
  end.

(** [s.match(/([\d,]+)\s+of\s+([\d,]+)/i)]: the groups of the leftmost match. *)
Fixpoint matchRemaining (s : string) : option (string * string) :=
  match remainingAt s with
  | Some m => Some m
  | None =>
      match s with
      | EmptyString => None
      | String _ r => matchRemaining r
      end
  end.

(** The object [parseRemainingOfTotal] returns. *)
Module Counts.
Record t := mk {
  remaining : float;
  total : float
}.
End Counts.

(** The screen the page shows: [showError(msg)], or the results of a game. *)
Inductive Screen :=
| ErrorScreen (msg : string)
| ResultScreen (game : Game.t) (result : EVResult.t).

(** The controls [getOptions] reads. *)
Module Controls.
Record t := mk {
  ignoreUnder500 : bool;
  applyTax : bool;
  taxRate : string
}.
End Controls.

(** The state of the page: [lastGame] and what is on screen. *)
Module Page.
Record t := mk {
  lastGame : option Game.t;
  screen : option Screen
}.
Definition initial : t := mk None None.
End Page.

Definition PleaseEnterPrice : string := "Please enter a ticket price.".
Definition PleaseAddTier : string := "Please add at least one prize tier with data.".


(** [renderResults(game, result)]: which screen is shown. *)
Definition renderResults (game : Game.t) (result : Outcome) : Screen :=
  match result with
  | Error error => ErrorScreen error
  | Result r => ResultScreen game r
  end.

Section Page.

Variable formatNum : float -> string.
Variable parseFloat : string -> float.
Variable parseInt : string -> float.

Definition parseRemainingOfTotal (str : string) : option Counts.t :=
  match matchRemaining (JS.trim str) with
  | Some (m1, m2) =>
      Some {| Counts.remaining := parseInt (removeCommas m1);
              Counts.total := parseInt (removeCommas m2) |}
  | None => None
  end.

(** The body of the loop of [parseCalotteryHtml] over the rows of a
    table, from the text of the cells of the row: [None] adds no tier. *)
Definition tableRow (cells : list string) : option Tier.t :=
  match cells with
  | c0 :: c1 :: c2 :: _ =>
      let prizeText := JS.trim c0 in
      let oddsText := JS.trim c1 in
      let remainingText := JS.trim c2 in
      let parsedRemaining := parseRemainingOfTotal remainingText in
      let oddsVal := parseOdds parseFloat (JS.Str oddsText) in
      let prizeVal := parseCurrency parseFloat (JS.Str prizeText) in
      match parsedRemaining with
      | Some counts =>
          if negb (JS.isNaN oddsVal) then
            Some {| Tier.prize := prizeText;
                    Tier.value := if isTicketTier prizeText then nan else prizeVal;
                    Tier.isTicket := isTicketTier prizeText;
                    Tier.odds := oddsVal;
                    Tier.remaining := Counts.remaining counts;
                    Tier.total := Counts.total counts |}
          else None
      | None => None
      end
  | _ => None
  end.

(** The tiers the loops over tables and rows push, in order. *)
Fixpoint tableRows (rows : list (list string)) : list Tier.t :=
  match rows with
  | [] => []
  | cells :: rows' =>
      match tableRow cells with
      | Some t => t :: tableRows rows'
      | None => tableRows rows'
      end
  end.

Definition tableTiers (tables : list (list (list string))) : list Tier.t :=
  flat_map tableRows tables.

(** [getOptions()] *)
Definition getOptions (controls : Controls.t) : Options.t :=
  {| Options.ignoreUnder500 := Controls.ignoreUnder500 controls;
     Options.applyTax := Controls.applyTax controls;
     Options.taxRate := JS.or (parseFloat (Controls.taxRate controls)) 24 |}.

(** [recalculate()], run when a control changes. *)
Definition recalculate (controls : Controls.t) (page : Page.t) : Page.t :=
  match Page.lastGame page with
  | None => page
  | Some lastGame =>
      let '(result, lastGame) := computeEV formatNum lastGame (getOptions controls) in
      {| Page.lastGame := Some lastGame;
         Page.screen := Some (renderResults lastGame result) |}
  end.

(** The click handler of the manual calc button. *)
Definition calcClick (form : Form.t) (controls : Controls.t) (page : Page.t) : Page.t :=
  let game := collectManualInput parseFloat parseInt form in
  if negb (JS.truthy (Game.ticketPrice game)) then
    {| Page.lastGame := Page.lastGame page;
       Page.screen := Some (ErrorScreen PleaseEnterPrice) |}
  else if Nat.eqb (List.length (Game.tiers game)) 0 then
    {| Page.lastGame := Page.lastGame page;
       Page.screen := Some (ErrorScreen PleaseAddTier) |}
  else
    let '(result, game) := computeEV formatNum game (getOptions controls) in
    {| Page.lastGame := Some game;
       Page.screen := Some (renderResults game result) |}.

End Page.

End ScriptPage.

(** ** scratchers.js: the controls of the table *)

Module ScratchersPage.
Import Scratchers.

(** The controls [getOptions] reads. *)
Module Controls.
Record t := mk {
  ignoreUnder500 : bool;
  applyTax : bool;
  taxRate : string
}.
End Controls.

(** What [JSON.parse] gave: an array of games or a single game. *)
Inductive Parsed :=
| Many (games : list Game.t)
| One (game : Game.t).

(** The badge of a row: its class and its prefix. *)
Definition badge (r : Overview.t) : string * string :=
  if JS.gt (Overview.deltaPercent r) 1 then ("badge-positive", "+")%string
  else if JS.lt (Overview.deltaPercent r) (-1) then ("badge-negative", "")%string
  else ("badge-neutral", "")%string.

(** [sortKey === key] *)
Definition sameKey (a b : SortKey.t) : bool :=
  match a, b with
  | SortKey.price, SortKey.price
  | SortKey.name, SortKey.name
  | SortKey.number, SortKey.number
  | SortKey.claimedOddsText, SortKey.claimedOddsText
  | SortKey.claimedOddsVal, SortKey.claimedOddsVal
  | SortKey.calcOddsVal, SortKey.calcOddsVal
  | SortKey.claimedEV, SortKey.claimedEV
  | SortKey.calcEV, SortKey.calcEV
  | SortKey.deltaPercent, SortKey.deltaPercent => true
  | _, _ => false
  end.

(** The click handler of a sortable header: the state it leaves. The
    table is rendered again from that state. *)
Definition clickHeader (key : SortKey.t) (st : State.t) : State.t :=
  if sameKey (State.sortKey st) key then
    State.mk (State.gamesData st) (State.sortKey st) (State.sortDir st * -1)
  else
    State.mk (State.gamesData st) key
      (match key with
       | SortKey.name | SortKey.number => 1
       | _ => -1
       end).

(** The load handlers: [gamesData] is replaced. *)
Definition loadJson (parsed : Parsed) (st : State.t) : State.t :=
  State.mk
    (match parsed with
     | Many games => games
     | One game => [game]
     end)
    (State.sortKey st) (State.sortDir st).

Section Page.
Variable parseFloat : string -> float.

(** [getOptions()] *)
Definition getOptions (controls : Controls.t) : Options.t :=
  {| Options.ignoreUnder500 := Controls.ignoreUnder500 controls;
     Options.applyTax := Controls.applyTax controls;
     Options.taxRate := JS.or (parseFloat (Controls.taxRate controls)) 24 |}.

End Page.

End ScratchersPage.

(** ** script.js: the title block of [parseCalotteryHtml] *)

Module ScriptTitle.






End ScriptTitle.

(** ** script.js and scratchers.js: the formatting helpers *)

Module ScriptFormat.
Section Host.

(** The host's [n.toFixed(d)]. *)
Variable toFixed : float -> nat -> string.

(** [formatMoney(n, decimals)]; [None] is a call without [decimals]. *)
Definition formatMoney (n : float) (decimals : option nat) : string :=
  let d := match decimals with
           | Some d => d
           | None => 2%nat
           end in
  ("$" ++ toFixed (abs n) d)%string.

Definition formatPct (n : float) : string := (toFixed (n * 100) 6 ++ "%")%string.

(** The signed amount [renderResults] prints for the net EV and for the
    EV contribution of a row: [x >= 0 ? '+' : '-'], then
    [formatMoney(x, 4)]. *)
Definition signedMoney (x : float) : string :=
  ((if (0 <=? x)%float then "+" else "-") ++ formatMoney x (Some 4%nat))%string.

End Host.
End ScriptFormat.

Module ScratchersFormat.
Section Host.

Variable toFixed : float -> nat -> string.

Definition formatMoney (n : float) : string :=
  let sign := if 0 <=? n then "+"%string else "-"%string in
  (sign ++ "$" ++ toFixed (abs n) 4)%string.

Definition formatOdds (n : float) : string :=
  if negb (JS.truthy n) || JS.isNaN n then "—"%string
  else ("1 in " ++ toFixed n 2)%string.

End Host.
End ScratchersFormat.

(** ** Order on binary64 numbers *)

Module Order.

(** A finite number of sign [s], or the infinity of that sign. *)
Definition signed (s : bool) (r : spec_float) : Prop :=
  (exists m e, r = S754_finite s m e) \/ r = S754_infinity s.

(** A number that is [+0], positive, or [+Infinity]. *)
Definition unsignedSF (r : spec_float) : Prop := r = S754_zero false \/ signed false r.
Definition unsigned (x : float) : Prop := unsignedSF (Prim2SF x).

(** A key that orders the numbers as [SFcompare] does: by sign class, then
    exponent, then mantissa, the last two reversed below zero. *)
Definition rank (f : spec_float) : Z * Z * Z :=
  match f with
  | S754_infinity true => (-2, 0, 0)%Z
  | S754_finite true m e => (-1, - e, - Z.pos m)%Z
  | S754_zero _ => (0, 0, 0)%Z
  | S754_finite false m e => (1, e, Z.pos m)%Z
  | S754_infinity false => (2, 0, 0)%Z
  | S754_nan => (3, 0, 0)%Z
  end.

Definition lexcmp (a b : Z * Z * Z) : comparison :=
  let '(a1, a2, a3) := a in
  let '(b1, b2, b3) := b in
  match (a1 ?= b1)%Z with
  | Eq => match (a2 ?= b2)%Z with
          | Eq => (a3 ?= b3)%Z
          | c => c
          end
  | c => c
  end.

Definition lexle (a b : Z * Z * Z) : Prop :=
  (fst (fst a) < fst (fst b) \/
   (fst (fst a) = fst (fst b) /\
    (snd (fst a) < snd (fst b) \/ (snd (fst a) = snd (fst b) /\ snd a <= snd b))))%Z.

(** Each number is at most the ones after it. *)
Definition ascending (s : list float) : Prop :=
  StronglySorted (fun a b => (a <=? b) = true) s.

End Order.

(** ** Vocabulary of the properties of script.js *)

Module ScriptSpec.
Import Script.

(** The effect of the resolution loop on one tier. *)
Definition resolveTier (p : float) (t : Tier.t) : Tier.t :=
  if Tier.isTicket t then Tier.setValue t p else t.

(** The first guard of [computeEV] lets the game through. *)
Definition precondition (g : Game.t) : bool :=
  JS.truthy (Game.ticketPrice g) && negb (Nat.eqb (List.length (Game.tiers g)) 0).

(** The game object once its ticket tiers are resolved. *)
Definition resolved (g : Game.t) : Game.t :=
  Game.setTiers g (resolveTicketValues (Game.ticketPrice g) (Game.tiers g)).

(** The two strategies of the estimator, each on its own. *)
Definition anchorEstimate (tiers : list Tier.t) : option float := fst (methodA tiers).

Definition medianEstimate (tiers : list Tier.t) : option float :=
  match tierEstimates tiers with
  | [] => None
  | estimates => Some (middle (JS.sort (fun a b => a - b) estimates))
  end.

Definition yields (tiers : list Tier.t) (m : float) : Prop :=
  anchorEstimate tiers = Some m \/ medianEstimate tiers = Some m.

Definition yieldsPositive (tiers : list Tier.t) : Prop :=
  exists m, yields tiers m /\ JS.gt m 0 = true.

Definition yieldsPositiveFinite (tiers : list Tier.t) : Prop :=
  exists m, yields tiers m /\ JS.gt m 0 = true /\ is_finite m = true.

(** The anchored pool of a ticket tier: [M0 * f]. *)
Definition anchored (t : Tier.t) : float :=
  (Tier.total t * Tier.odds t) * (Tier.remaining t / Tier.total t).

(** A ticket tier with [total > 0], [remaining > 0] and numeric odds. *)
Definition ticketAnchor (t : Tier.t) : Prop :=
  Tier.isTicket t = true /\ JS.gt (Tier.total t) 0 = true /\
  JS.gt (Tier.remaining t) 0 = true /\ JS.isNaN (Tier.odds t) = false.

(** The adjustment pipeline, step by step. *)
Definition zeroUnder500 (ignoreUnder500 : bool) (value : float) : float :=
  if ignoreUnder500 && JS.gt value 0 && JS.lt value 500 then 0 else value.

Definition taxed (applyTax : bool) (taxRate adjusted : float) : float :=
  if applyTax && JS.gt adjusted 0 then adjusted * (1 - taxRate / 100) else adjusted.

Definition pipeline (ignoreUnder500 applyTax : bool) (taxRate value : float) : float :=
  taxed applyTax taxRate (zeroUnder500 ignoreUnder500 value).

(** The median of a list of numbers: the middle of an ascending
    arrangement of it, the mean of the two middle values when their
    number is even. *)
Definition middleOf (s : list float) : float :=
  let n := List.length s in
  if Nat.even n
  then (nth (Nat.div n 2 - 1) s nan + nth (Nat.div n 2) s nan) / 2
  else nth (Nat.div n 2) s nan.

Definition isMedian (l : list float) (m : float) : Prop :=
  exists s, Permutation l s /\ Order.ascending s /\ m = middleOf s.

Section Engine.
Variable formatNum : float -> string.

(** The result object, as a function of the resolved tiers and the pool. *)
Definition resultOf (o : Options.t) (price : float) (tiers : list Tier.t)
    (M : float) (method : string) : EVResult.t :=
  let i := Options.ignoreUnder500 o in
  let d := Options.applyTax o in
  let r := Options.taxRate o in
  let gross :=
    fold_left (fun s c => s + c)
      (map (fun t => TierResult.evContribution (tierResult formatNum i d r M t)) tiers) 0 in
  {| EVResult.ticketPrice := price;
     EVResult.M := M;
     EVResult.method := method;
     EVResult.evGross := gross;
     EVResult.evNet := gross - price;
     EVResult.tiers := map (tierResult formatNum i d r M) tiers |}.

(** The specification's sentence on the anchor, read for every game:
    a game with such a ticket tier gets the anchor and its [M]. *)
Definition anchorAlwaysSelected (g : Game.t) (o : Options.t) : Prop :=
  forall t, In t (Game.tiers g) -> ticketAnchor t ->
  exists r, fst (computeEV formatNum g o) = Result r /\
            EVResult.method r = TicketAnchor /\ EVResult.M r = anchored t.

(** The specification's sentence on a ticket tier with nothing remaining:
    the anchor gives [M = 0] and no EV is computed. *)
Definition emptyTicketTierFails (g : Game.t) (o : Options.t) : Prop :=
  forall t, In t (Game.tiers g) -> Tier.isTicket t = true ->
  JS.seq (Tier.remaining t) 0 = true ->
  anchorEstimate (Game.tiers g) = Some 0 /\
  fst (computeEV formatNum g o) = Error EstimationFailure.

(** The specification's sentence on estimation failure: it is returned
    when no strategy yields a positive finite [M], a result when one does. *)
Definition failsUnlessPositiveFinite (g : Game.t) (o : Options.t) : Prop :=
  precondition g = true ->
  (~ yieldsPositiveFinite (Game.tiers g) ->
   fst (computeEV formatNum g o) = Error EstimationFailure) /\
  (yieldsPositiveFinite (Game.tiers g) ->
   exists r, fst (computeEV formatNum g o) = Result r).
End Engine.

(** *** Sample inputs *)

Definition noFormat (x : float) : string := EmptyString.
Definition plain : Options.t := Options.mk false false 24.
Definition strict : Options.t := Options.mk true true 24.

Definition game (price : float) (tiers : list Tier.t) : Game.t :=
  Game.mk "Sample" "1" price "" "" tiers.
Definition cash (value odds remaining total : float) : Tier.t :=
  Tier.mk "cash" value false odds remaining total.
Definition ticket (odds remaining total : float) : Tier.t :=
  Tier.mk "Ticket" nan true odds remaining total.

(** The scenario of the specification: price 2, a $1000 tier and a ticket tier. *)
Definition springGreen : Game.t :=
  game 2 [cash 1000 62257 137 147; ticket 12 646383 732144].
(** A ticket tier printed in full, nothing claimed yet. *)
Definition freshGame : Game.t := game 2 [cash 1000 50 10 20; ticket 12 100 100].
(** A ticket tier whose odds were entered as 0. *)
Definition zeroOdds : Game.t := game 2 [ticket 0 5 10; cash 100 10 3 3].
(** A ticket tier with nothing remaining, next to a cash tier. *)
Definition soldOutTicket : Game.t := game 2 [ticket 12 0 100; cash 1000 50 10 20].
(** A game whose only tier is a ticket tier with nothing remaining. *)
Definition onlySoldOut : Game.t := game 2 [ticket 12 0 100].
(** Odds text such as "1e999" parses to [Infinity]. *)
Definition infiniteOdds : Game.t := game 2 [ticket infinity 1 1].
(** Two cash tiers and no ticket tier. *)
Definition cashOnly : Game.t := game 5 [cash 100 40 30 60; cash 20 10 100 200].
(** A prize label that did not parse. *)
Definition unparsed : Game.t := game 2 [cash nan 50 10 20; ticket 12 80 100].
Definition noPrice : Game.t := game 0 [cash 100 40 30 60].

End ScriptSpec.

(** ** Vocabulary of the properties of scratchers.js *)

Module ScratchersSpec.
Import Scratchers.

(** The sum of a quantity over tiers, from the first tier on. *)
Definition sumOver (f : Resolved.t -> float) (l : list Resolved.t) : float :=
  fold_left (fun s t => s + f t) l 0.

(** The arithmetic mean of a list of numbers. *)
Definition mean (l : list float) : float :=
  fold_left (fun a b => a + b) l 0 / JS.ofNat (List.length l).

(** The launch-state pool [M0] and the current-state pool [Mhat]. *)
Definition launchPool (valid : list Resolved.t) : float :=
  mean (map (fun t => Resolved.odds t * Resolved.total t) valid).

Definition currentPool (valid : list Resolved.t) : float :=
  launchPool valid * (sumOver Resolved.remaining valid / sumOver Resolved.total valid).

Definition adjusted (o : Options.t) (t : Resolved.t) : float :=
  adjustValue (Resolved.rawValue t) (Resolved.isTicket t) o.

Definition claimedGross (o : Options.t) (valid : list Resolved.t) : float :=
  sumOver (fun t => adjusted o t * Resolved.total t) valid / launchPool valid.

Definition calcGross (o : Options.t) (valid : list Resolved.t) : float :=
  sumOver (fun t => adjusted o t * Resolved.remaining t) valid / currentPool valid.

(** The drift of the current net EV from the claimed one, in percent. *)
Definition driftPercent (claimedNet calcNet : float) : float :=
  ((calcNet - claimedNet) / abs claimedNet) * 100.

(** The game has no price the engine accepts. *)
Definition unpriced (g : Game.t) : bool :=
  match Game.price g with
  | Some p => negb (JS.truthy p)
  | None => true
  end.

Definition tiersOf (g : Game.t) : list Tier.t :=
  match Game.tiers g with
  | Some ts => ts
  | None => []
  end.

Section Engine.
Variable parseFloat : string -> float.

(** The valid tiers of a game: those with [total > 0] and positive
    numeric odds. *)
Definition validOf (g : Game.t) : list Resolved.t :=
  validTiers parseFloat (orNum (Game.price g) 0) (tiersOf g).

(** Zero valid tiers, zero total tickets, zero remaining tickets, or
    zero [M0]. *)
Definition degenerate (g : Game.t) : bool :=
  Nat.eqb (List.length (validOf g)) 0
  || JS.seq (sumOver Resolved.total (validOf g)) 0
  || JS.seq (sumOver Resolved.remaining (validOf g)) 0
  || JS.seq (launchPool (validOf g)) 0.

(** The row of a game that is not skipped. *)
Definition overviewOf (o : Options.t) (g : Game.t) : Overview.t :=
  let p := orNum (Game.price g) 0 in
  let valid := validOf g in
  let claimedNet := claimedGross o valid - p in
  let calcNet := calcGross o valid - p in
  {| Overview.name := Game.name g;
     Overview.number := orStr (Game.number g) EmptyString;
     Overview.price := p;
     Overview.claimedOddsText := orStr (Game.claimedOdds g) "—";
     Overview.claimedOddsVal := parseOdds parseFloat (ofOptStr (Game.claimedOdds g));
     Overview.calcOddsVal := currentPool valid / sumOver Resolved.remaining valid;
     Overview.claimedEV := claimedNet;
     Overview.calcEV := calcNet;
     Overview.deltaPercent := delta claimedNet calcNet |}.

(** The specification's sentence on batches: a game is skipped exactly
    when it is degenerate. *)
Definition skippedIffDegenerate (g : Game.t) (o : Options.t) : Prop :=
  computeOverview parseFloat g o = None <-> degenerate g = true.

(** The rows of a batch, game by game: no row for a skipped game. *)
Definition rowOf (o : Options.t) (g : Game.t) : list Overview.t :=
  match computeOverview parseFloat g o with
  | Some r => [r]
  | None => []
  end.
End Engine.

(** *** Sample inputs *)

Definition noParse (s : string) : float := nan.
Definition plain : Options.t := Options.mk false false 24.
Definition strict : Options.t := Options.mk true true 24.

Definition cash (value odds remaining total : float) : Tier.t :=
  Tier.mk None None (JS.Num value) false (JS.Num odds) (Some remaining) (Some total) None.
Definition ticket (odds remaining total : float) : Tier.t :=
  Tier.mk (Some "Ticket"%string) None (JS.Str "Ticket") true (JS.Num odds)
    (Some remaining) (Some total) None.
Definition game (name : string) (price : float) (tiers : list Tier.t) : Game.t :=
  Game.mk name (Some "1710"%string) (Some price) (Some "1 in 4.25"%string) (Some tiers).

(** Games cut down from [SAMPLE_DATA]. *)
Definition springGreen : Game.t :=
  game "$pring Green" 2 [cash 1000 62257 137 147; ticket 12 646383 732144].
Definition cashCrush : Game.t :=
  game "Cash Crush" 5 [cash 250000 1219589 14 14; cash 10 15 1051762 1173743].
Definition fireball : Game.t :=
  game "Fireball Bingo" 3 [cash 20000 798080 10 10; ticket 8 832098 998504].
Definition moneyMania : Game.t :=
  game "$1,000,000 Money Mania" 10 [cash 1000000 4263696 3 3; ticket 15 745212 854088].
(** A game with [tiers: []]. *)
Definition noTiers : Game.t := game "Red Carpet Riches" 20 [].
(** A game with [price: 0]. *)
Definition freeGame : Game.t := game "Free" 0 [cash 1000 62257 137 147].
(** A game whose single prize is worth exactly what the ticket costs
    in expectation: claimed net EV is 0. *)
Definition breakEven : Game.t := game "Even" 2 [cash 8 4 50 100].

Definition batch : list Game.t := [springGreen; cashCrush; noTiers; fireball; moneyMania].

End ScratchersSpec.

(** ** Vocabulary of the properties of the parsing helpers *)

Module TextSpec.

(** A string of white space only. *)
Fixpoint allSpace (s : string) : bool :=
  match s with
  | EmptyString => true
  | String c r => JS.isSpace c && allSpace r
  end.

(** The classes [[\d,.]] and [[\d,]] of the two patterns, and [\S]. *)
Definition numberChar (c : ascii) : bool :=
  JS.isDigit c || Ascii.eqb c "," || Ascii.eqb c ".".
Definition countChar (c : ascii) : bool := JS.isDigit c || Ascii.eqb c ",".


Fixpoint allChars (p : ascii -> bool) (s : string) : bool :=
  match s with
  | EmptyString => true
  | String c r => p c && allChars p r
  end.

Definition startsWith (p : ascii -> bool) (s : string) : bool :=
  match s with
  | EmptyString => false
  | String c _ => p c
  end.

(** A host parser for the samples: the number of the decimal digits at
    the head of the text, [NaN] when there is none. *)
Fixpoint leadingDigits (s : string) (acc : Z) (seen : bool) : option Z :=
  match s with
  | String c r =>
      if JS.isDigit c
      then leadingDigits r (10 * acc + (Z.of_nat (nat_of_ascii c) - 48))%Z true
      else if seen then Some acc else None
  | EmptyString => if seen then Some acc else None
  end.

Definition decimal (s : string) : float :=
  match leadingDigits s 0 false with
  | Some z => of_uint63 (Uint63.of_Z z)
  | None => nan
  end.

End TextSpec.

(** ** Vocabulary of the properties of the calculator page *)

Module EngineSpec.
Import Script ScriptSpec ScriptPage.

(** What a row of the result reports besides the adjusted value and the
    EV contribution. *)
Definition unadjusted (tr : TierResult.t)
  : string * float * string * float * float * float * float * float * bool :=
  (TierResult.prize tr, TierResult.value tr, TierResult.oddsText tr,
   TierResult.remaining tr, TierResult.total tr, TierResult.parsedN tr,
   TierResult.tierTicketEst tr, TierResult.probability tr, TierResult.isTicket tr).

(** Two tiers with the same flag, odds and counts. *)
Definition sameCounts (t1 t2 : Tier.t) : Prop :=
  Tier.isTicket t1 = Tier.isTicket t2 /\ Tier.odds t1 = Tier.odds t2 /\
  Tier.remaining t1 = Tier.remaining t2 /\ Tier.total t1 = Tier.total t2.

Section Engine.
Variable formatNum : float -> string.

(** The page while the results of [g] are on screen, computed with the
    pool [M] under some options. *)
Definition showing (g : Game.t) (M : float) (method : string) (p : Page.t) : Prop :=
  Page.lastGame p = Some g /\
  exists o, Page.screen p =
            Some (ResultScreen g
                    (resultOf formatNum o (Game.ticketPrice g) (Game.tiers g) M method)).
End Engine.

(** *** Sample inputs *)

(** The scenario of the specification with another value on the cash tier. *)
Definition springGreenCheap : Game.t :=
  game 2 [cash 5 62257 137 147; ticket 12 646383 732144].

End EngineSpec.

(** ** Vocabulary of the properties of the overview table *)

Module TableSpec.
Import Scratchers ScratchersPage.

(** What a row reports besides the two EVs and their drift. *)
Definition unadjustedRow (r : Overview.t)
  : string * string * float * string * float * float :=
  (Overview.name r, Overview.number r, Overview.price r, Overview.claimedOddsText r,
   Overview.claimedOddsVal r, Overview.calcOddsVal r).

(** The states the handlers of the page lead to. *)
Inductive reachable : State.t -> Prop :=
| reach_initial : reachable State.initial
| reach_click key st : reachable st -> reachable (clickHeader key st)
| reach_load parsed st : reachable st -> reachable (loadJson parsed st).

(** [va <= vb] for two values of one column. *)
Definition atMost (va vb : JS.value) : Prop :=
  match va, vb with
  | JS.Num x, JS.Num y => (x <=? y) = true
  | JS.Str s, JS.Str t => String.leb s t = true
  | _, _ => False
  end.

(** A value that [<] orders: a string, or a number other than [NaN]. *)
Definition comparable (v : JS.value) : Prop :=
  match v with
  | JS.Num x => is_nan x = false
  | JS.Str _ => True
  | JS.Undefined => False
  end.

(** Rows in the order of a column, and in the opposite order. *)
Definition ascendingBy (key : SortKey.t) (rows : list Overview.t) : Prop :=
  StronglySorted (fun a b => atMost (sortValue key a) (sortValue key b)) rows.
Definition descendingBy (key : SortKey.t) (rows : list Overview.t) : Prop :=
  StronglySorted (fun a b => atMost (sortValue key b) (sortValue key a)) rows.

(** *** Sample inputs *)

(** A game at launch: every prize is still there. *)
Definition untouched : Game.t :=
  ScratchersSpec.game "Fresh" 2
    [ScratchersSpec.cash 1000 50 20 20; ScratchersSpec.ticket 12 100 100].

End TableSpec.

(** * Properties *)

(** ** Rounding and comparison of [spec_float] numbers *)

Module RoundingFacts.
Import Order.
Local Open Scope Z_scope.

(** The number of binary digits of a mantissa. *)
Lemma digits2_size p : digits2_pos p = Pos.size p.
Proof. induction p; cbn; congruence. Qed.

Lemma digits2_log2 p : Z.pos (digits2_pos p) = Z.log2 (Z.pos p) + 1.
Proof. rewrite digits2_size. destruct p; cbn; lia. Qed.

Lemma digits2_bounds p :
  2 ^ (Z.pos (digits2_pos p) - 1) <= Z.pos p < 2 ^ Z.pos (digits2_pos p).
Proof.
  rewrite digits2_log2. replace (Z.log2 (Z.pos p) + 1 - 1) with (Z.log2 (Z.pos p)) by lia.
  apply Z.log2_spec. lia.
Qed.

(** A right shift halves the mantissa; [n] of them divide it by [2 ^ n]. *)
Lemma shr_1_m mrs : 0 <= shr_m mrs -> shr_m (shr_1 mrs) = shr_m mrs / 2.
Proof.
  destruct mrs as [m r s]. cbn [shr_m]. intros H.
  destruct m as [|[p|p|]|p]; cbn [shr_1 shr_m]; try lia; try reflexivity.
  - rewrite Pos2Z.inj_xI. apply Z.div_unique with 1; lia.
  - rewrite Pos2Z.inj_xO. apply Z.div_unique with 0; lia.
Qed.

Lemma pow2_xO p : 2 ^ Z.pos p~0 = 2 ^ Z.pos p * 2 ^ Z.pos p.
Proof.
  replace (Z.pos p~0) with (Z.pos p + Z.pos p) by lia.
  now rewrite Z.pow_add_r by lia.
Qed.

Lemma pow2_xI p : 2 ^ Z.pos p~1 = 2 * (2 ^ Z.pos p * 2 ^ Z.pos p).
Proof.
  replace (Z.pos p~1) with (1 + (Z.pos p + Z.pos p)) by lia.
  now rewrite !Z.pow_add_r, Z.pow_1_r by lia.
Qed.

Lemma iter_shr_m p : forall mrs,
  0 <= shr_m mrs -> shr_m (iter_pos shr_1 p mrs) = shr_m mrs / 2 ^ Z.pos p.
Proof.
  induction p as [p IH|p IH|]; intros mrs H; cbn [iter_pos].
  - assert (H1 : 0 <= shr_m (shr_1 mrs)) by (rewrite shr_1_m by lia; apply Z.div_pos; lia).
    assert (H2 : 0 <= shr_m (iter_pos shr_1 p (shr_1 mrs)))
      by (rewrite IH by lia; apply Z.div_pos; lia).
    rewrite IH, IH, shr_1_m by lia.
    rewrite !Z.div_div by lia. now rewrite pow2_xI, Z.mul_assoc.
  - assert (H2 : 0 <= shr_m (iter_pos shr_1 p mrs))
      by (rewrite IH by lia; apply Z.div_pos; lia).
    rewrite IH, IH by lia.
    rewrite !Z.div_div by lia. now rewrite pow2_xO.
  - rewrite shr_1_m by lia. reflexivity.
Qed.

Lemma shr_record_m m l : shr_m (shr_record_of_loc m l) = m.
Proof. destruct l as [|[]]; reflexivity. Qed.

Lemma fexp_ge_emin x : emin <= fexp prec emax x.
Proof. unfold fexp. lia. Qed.

(** Shifting to the target exponent keeps a mantissa non-negative, and
    positive above the smallest exponent. *)
Lemma shr_fexp_nonneg m e l :
  0 <= m -> 0 <= shr_m (fst (shr_fexp prec emax m e l)).
Proof.
  intros Hm. unfold shr_fexp, shr.
  destruct (fexp prec emax (Zdigits2 m + e) - e) as [|p|p]; cbn [fst];
    rewrite ?iter_shr_m; rewrite ?shr_record_m; try lia.
  apply Z.div_pos; lia.
Qed.

Lemma shr_fexp_pos m e l :
  0 < m -> emin <= e ->
  0 < shr_m (fst (shr_fexp prec emax m e l)) /\ emin <= snd (shr_fexp prec emax m e l).
Proof.
  intros Hm He. unfold shr_fexp, shr.
  destruct (fexp prec emax (Zdigits2 m + e) - e) as [|p|p] eqn:En; cbn [fst snd];
    rewrite ?shr_record_m; try lia.
  rewrite iter_shr_m by (rewrite shr_record_m; lia). rewrite shr_record_m.
  split; [|lia]. apply Z.div_str_pos. split; [lia|].
  destruct m as [|q|q]; try lia. cbn [Zdigits2] in En.
  pose proof (digits2_bounds q) as [B _].
  apply Z.le_trans with (2 ^ (Z.pos (digits2_pos q) - 1)); [|exact B].
  apply Z.pow_le_mono_r; [lia|]. unfold fexp, emin, prec, emax in *. lia.
Qed.

Lemma round_pos m l : 0 < m -> 0 < round_nearest_even m l.
Proof. intros H. destruct l as [|[]]; cbn; try lia. destruct (Z.even m); lia. Qed.

Lemma round_nonneg m l : 0 <= m -> 0 <= round_nearest_even m l.
Proof. intros H. destruct l as [|[]]; cbn; try lia. destruct (Z.even m); lia. Qed.

(** Rounding a positive mantissa above the smallest exponent gives a
    number of the same sign: it never underflows to zero. *)
Lemma binary_round_aux_pos s m e l :
  0 < m -> emin <= e -> signed s (binary_round_aux prec emax s m e l).
Proof.
  intros Hm He. unfold binary_round_aux.
  destruct (shr_fexp_pos m e l Hm He) as [H1 H1'].
  destruct (shr_fexp prec emax m e l) as [mrs' e']. cbn [fst snd] in *.
  pose proof (round_pos _ (loc_of_shr_record mrs') H1) as H2.
  destruct (shr_fexp_pos _ e' loc_Exact H2 H1') as [H3 _].
  destruct (shr_fexp prec emax _ e' loc_Exact) as [mrs'' e'']. cbn [fst] in *.
  destruct (shr_m mrs'') as [|q|q]; try lia.
  destruct (e'' <=? emax - prec); [left; eauto | now right].
Qed.

Lemma shl_align_exp m e e' : emin <= e -> emin <= e' -> emin <= snd (shl_align m e e').
Proof. intros H H'. unfold shl_align. destruct (e' - e); cbn [snd]; lia. Qed.

Lemma binary_round_signed s m e : emin <= e -> signed s (binary_round prec emax s m e).
Proof.
  intros He. unfold binary_round.
  pose proof (shl_align_exp m e (fexp prec emax (Z.pos (digits2_pos m) + e)) He
                (fexp_ge_emin _)) as H.
  destruct (shl_align m e _) as [mz ez]. cbn [snd] in H.
  apply binary_round_aux_pos; lia.
Qed.

(** The sign of a rounded integer multiple of a power of two. *)
Lemma binary_normalize_gt z e :
  emin <= e ->
  SFltb (S754_zero false) (binary_normalize prec emax z e false) = (0 <? z).
Proof.
  intros He. destruct z as [|p|p]; cbn [binary_normalize]; [reflexivity| |].
  - destruct (binary_round_signed false p e He) as [(m' & e' & ->) | ->]; reflexivity.
  - destruct (binary_round_signed true p e He) as [(m' & e' & ->) | ->]; reflexivity.
Qed.

Lemma iter_xO m d : Z.pos (Pos.iter xO m d) = Z.pos m * 2 ^ Z.pos d.
Proof.
  induction d as [|d IH] using Pos.peano_ind.
  - cbn. lia.
  - rewrite Pos.iter_succ, Pos2Z.inj_succ, Z.pow_succ_r by lia.
    replace (Z.pos (Pos.iter xO m d)~0) with (2 * Z.pos (Pos.iter xO m d)) by lia.
    rewrite IH. ring.
Qed.

Lemma shl_align_fst m e ez :
  ez <= e -> Z.pos (fst (shl_align m e ez)) = Z.pos m * 2 ^ (e - ez).
Proof.
  intros H. unfold shl_align. destruct (ez - e) as [|p|p] eqn:E; cbn [fst]; try lia.
  - replace (e - ez) with 0 by lia. lia.
  - rewrite iter_xO. f_equal. f_equal. lia.
Qed.

(** A canonical mantissa has at most 53 digits, and exactly 53 above the
    smallest exponent. *)
Lemma canonical_bounds m e :
  canonical_mantissa prec emax m e = true ->
  emin <= e /\ Z.pos m < 2 ^ 53 /\ (emin < e -> 2 ^ 52 <= Z.pos m).
Proof.
  unfold canonical_mantissa. rewrite Z.eqb_eq. intros H.
  pose proof (digits2_bounds m) as [B1 B2].
  assert (Hd : Z.pos (digits2_pos m) <= 53 /\ emin <= e /\
               (emin < e -> Z.pos (digits2_pos m) = 53))
    by (unfold fexp, emin, prec, emax in *; lia).
  destruct Hd as (Hd1 & Hd2 & Hd3). split; [exact Hd2|]. split.
  - apply Z.lt_le_trans with (1 := B2). apply Z.pow_le_mono_r; lia.
  - intros He. rewrite (Hd3 He) in B1. exact B1.
Qed.

(** Canonical numbers of one sign compare by exponent, then mantissa.
    Aligned to the smaller exponent, their mantissas compare the same way. *)
Lemma aligned_compare mx ex my ey :
  canonical_mantissa prec emax mx ex = true ->
  canonical_mantissa prec emax my ey = true ->
  (Z.pos mx * 2 ^ (ex - Z.min ex ey) ?= Z.pos my * 2 ^ (ey - Z.min ex ey)) =
  match ex ?= ey with
  | Lt => Lt
  | Gt => Gt
  | Eq => Pos.compare mx my
  end.
Proof.
  intros Cx Cy.
  destruct (canonical_bounds _ _ Cx) as (Ex & Ux & Lx).
  destruct (canonical_bounds _ _ Cy) as (Ey & Uy & Ly).
  destruct (Z.compare_spec ex ey) as [->|H|H].
  - rewrite Z.min_id, Z.sub_diag, !Z.mul_1_r. reflexivity.
  - rewrite Z.min_l, Z.sub_diag, Z.mul_1_r by lia. apply Z.compare_lt_iff.
    assert (2 ^ 1 <= 2 ^ (ey - ex)) by (apply Z.pow_le_mono_r; lia).
    specialize (Ly ltac:(lia)). change (2 ^ 1) with 2 in *.
    change (2 ^ 53) with (2 ^ 52 * 2) in Ux. nia.
  - rewrite Z.min_r, Z.sub_diag, Z.mul_1_r by lia. apply Z.compare_gt_iff.
    assert (2 ^ 1 <= 2 ^ (ex - ey)) by (apply Z.pow_le_mono_r; lia).
    specialize (Lx ltac:(lia)). change (2 ^ 1) with 2 in *.
    change (2 ^ 53) with (2 ^ 52 * 2) in Uy. nia.
Qed.

(** [x - y > 0] exactly when [x > y]. *)
Lemma SFsub_gt x y :
  valid_binary x = true -> valid_binary y = true ->
  SFltb (S754_zero false) (SF64sub x y) = SFltb y x.
Proof.
  intros Vx Vy.
  destruct x as [sx|sx| |sx mx ex], y as [sy|sy| |sy my ey];
    try (destruct sx); try (destruct sy); try reflexivity.
  all: cbn [valid_binary] in Vx, Vy; unfold bounded in Vx, Vy;
    apply andb_true_iff in Vx as [Cx _]; apply andb_true_iff in Vy as [Cy _].
  all: destruct (canonical_bounds _ _ Cx) as (Ex & _ & _);
    destruct (canonical_bounds _ _ Cy) as (Ey & _ & _).
  all: unfold SF64sub, SFsub; rewrite binary_normalize_gt by lia.
  all: rewrite !shl_align_fst by lia; cbn [cond_Zopp].
  all: unfold SFltb, SFcompare.
  all: pose proof (aligned_compare mx ex my ey Cx Cy) as A.
  all: assert (HX : 0 < Z.pos mx * 2 ^ (ex - Z.min ex ey))
         by (apply Z.mul_pos_pos; [lia | apply Z.pow_pos_nonneg; lia]).
  all: assert (HY : 0 < Z.pos my * 2 ^ (ey - Z.min ex ey))
         by (apply Z.mul_pos_pos; [lia | apply Z.pow_pos_nonneg; lia]).
  all: revert A HX HY;
    generalize (Z.pos mx * 2 ^ (ex - Z.min ex ey)) (Z.pos my * 2 ^ (ey - Z.min ex ey));
    intros X Y A HX HY.
  all: rewrite ?Pos.compare_cont_spec, ?(Z.compare_antisym ex ey),
         ?(Pos.compare_antisym mx my).
  all: destruct (Z.ltb_spec 0 (- X - - Y)), (Z.ltb_spec 0 (- X - Y)),
         (Z.ltb_spec 0 (X - - Y)), (Z.ltb_spec 0 (X - Y)); try lia.
  all: destruct (ex ?= ey), (mx ?= my)%positive; cbn [CompOpp Pos.switch_Eq];
    try reflexivity.
  all: cbv iota beta in A; exfalso;
    first [apply Z.compare_eq_iff in A | change (X < Y) in A | change (X > Y) in A]; lia.
Qed.

(** [SFcompare] is the lexicographic comparison of the keys. *)
Lemma SFcompare_rank f g :
  f <> S754_nan -> g <> S754_nan -> SFcompare f g = Some (lexcmp (rank f) (rank g)).
Proof.
  intros Hf Hg.
  destruct f as [s|s| |s m e], g as [s'|s'| |s' m' e']; try congruence;
    try destruct s; try destruct s'; try reflexivity.
  all: cbn [SFcompare rank lexcmp Z.compare Pos.compare].
  all: rewrite ?Pos.compare_cont_spec; cbn [Pos.switch_Eq].
  rewrite !Z.compare_opp, (Z.compare_antisym e e').
  change (Z.pos m' ?= Z.pos m) with (m' ?= m)%positive.
  rewrite (Pos.compare_antisym m m').
  cbn [Pos.compare Pos.compare_cont CompOpp Pos.switch_Eq].
  destruct (e ?= e'), (m ?= m')%positive; reflexivity.
Qed.

Lemma lexcmp_le a b : lexcmp a b <> Gt <-> lexle a b.
Proof.
  destruct a as [[a1 a2] a3], b as [[b1 b2] b3]. unfold lexcmp, lexle. cbn [fst snd].
  destruct (Z.compare_spec a1 b1), (Z.compare_spec a2 b2), (Z.compare_spec a3 b3);
    split; intros HH; try congruence; try lia; try discriminate.
Qed.

Lemma lexcmp_flip a b : lexcmp a b <> Lt -> lexle b a.
Proof.
  destruct a as [[a1 a2] a3], b as [[b1 b2] b3]. unfold lexcmp, lexle. cbn [fst snd].
  destruct (Z.compare_spec a1 b1), (Z.compare_spec a2 b2), (Z.compare_spec a3 b3);
    intros HH; try congruence; lia.
Qed.

Lemma lexle_trans a b c : lexle a b -> lexle b c -> lexle a c.
Proof. unfold lexle. lia. Qed.

Lemma lexle_antisym a b : lexle a b -> lexle b a -> a = b.
Proof.
  destruct a as [[a1 a2] a3], b as [[b1 b2] b3]. unfold lexle. cbn [fst snd].
  intros H1 H2. repeat f_equal; lia.
Qed.

Lemma SFleb_rank f g :
  SFleb f g = true <-> f <> S754_nan /\ g <> S754_nan /\ lexle (rank f) (rank g).
Proof.
  split.
  - intros H.
    assert (Hf : f <> S754_nan) by (intros ->; discriminate).
    assert (Hg : g <> S754_nan) by (intros ->; now destruct f).
    repeat split; try assumption. apply lexcmp_le.
    unfold SFleb in H. rewrite SFcompare_rank in H by assumption.
    destruct (lexcmp (rank f) (rank g)); congruence.
  - intros (Hf & Hg & H). apply lexcmp_le in H. unfold SFleb.
    rewrite SFcompare_rank by assumption.
    destruct (lexcmp (rank f) (rank g)); congruence.
Qed.

Lemma SFltb_rank f g :
  f <> S754_nan -> g <> S754_nan -> SFltb f g = false -> lexle (rank g) (rank f).
Proof.
  intros Hf Hg H. apply lexcmp_flip. unfold SFltb in H.
  rewrite SFcompare_rank in H by assumption.
  destruct (lexcmp (rank f) (rank g)); congruence.
Qed.

(** Rounding with sign [+] gives [+0], a positive number or [+Infinity]. *)
Lemma binary_round_aux_unsigned m e l :
  0 <= m -> unsignedSF (binary_round_aux prec emax false m e l).
Proof.
  intros Hm. unfold binary_round_aux.
  pose proof (shr_fexp_nonneg m e l Hm) as H1.
  destruct (shr_fexp prec emax m e l) as [mrs' e']. cbn [fst] in *.
  pose proof (round_nonneg _ (loc_of_shr_record mrs') H1) as H2.
  pose proof (shr_fexp_nonneg _ e' loc_Exact H2) as H3.
  destruct (shr_fexp prec emax _ e' loc_Exact) as [mrs'' e'']. cbn [fst] in *.
  destruct (shr_m mrs'') as [|q|q]; try lia.
  - now left.
  - right. destruct (e'' <=? emax - prec); [left; eauto | now right].
Qed.

Lemma rank_unsigned_inj f g : unsignedSF f -> unsignedSF g -> rank f = rank g -> f = g.
Proof.
  intros [-> | [(m & e & ->) | ->]] [-> | [(m' & e' & ->) | ->]]; cbn;
    intros H; inversion H; subst; reflexivity.
Qed.

Lemma unsignedSF_not_nan f : unsignedSF f -> f <> S754_nan.
Proof. intros [-> | [(m & e & ->) | ->]]; discriminate. Qed.

End RoundingFacts.

(** ** Facts about binary64 arithmetic *)

Module FloatFacts.
Import Order RoundingFacts.

Ltac spec_eq :=
  apply Prim2SF_inj; rewrite ?mul_spec, ?add_spec, ?sub_spec, ?div_spec.

Lemma Prim2SF_nan : Prim2SF nan = S754_nan.
Proof. reflexivity. Qed.

Lemma Prim2SF_zero : Prim2SF 0 = S754_zero false.
Proof. reflexivity. Qed.

Lemma Prim2SF_one : Prim2SF 1 = S754_finite false 4503599627370496 (-52).
Proof. reflexivity. Qed.

Lemma mul_nan_r x : x * nan = nan.
Proof. spec_eq. rewrite Prim2SF_nan. now destruct (Prim2SF x). Qed.

Lemma mul_nan_l x : nan * x = nan.
Proof. spec_eq. now rewrite Prim2SF_nan. Qed.

Lemma add_nan_r x : x + nan = nan.
Proof. spec_eq. rewrite Prim2SF_nan. now destruct (Prim2SF x). Qed.

Lemma add_nan_l x : nan + x = nan.
Proof. spec_eq. now rewrite Prim2SF_nan. Qed.

Lemma sub_nan_l x : nan - x = nan.
Proof. spec_eq. now rewrite Prim2SF_nan. Qed.

Lemma SFeqb_refl_finite s m e : SFeqb (S754_finite s m e) (S754_finite s m e) = true.
Proof.
  unfold SFeqb, SFcompare. rewrite Z.compare_refl.
  destruct s; now rewrite Pos.compare_cont_refl.
Qed.

Lemma is_nan_spec x : is_nan x = true <-> x = nan.
Proof.
  unfold is_nan. rewrite eqb_spec. split.
  - intros H. apply Prim2SF_inj. rewrite Prim2SF_nan.
    destruct (Prim2SF x) as [s|s| |s m e]; try reflexivity; exfalso; revert H.
    + now destruct s.
    + now destruct s.
    + now rewrite SFeqb_refl_finite.
  - now intros ->.
Qed.

(** [!M || M <= 0] is false exactly when [M > 0]. *)
Lemma positive_iff m :
  negb (negb (is_nan m || is_zero m)) || (m <=? 0) = false <-> (0 <? m) = true.
Proof.
  unfold is_nan, is_zero. rewrite !eqb_spec, leb_spec, ltb_spec.
  change (Prim2SF zero) with (S754_zero false). rewrite Prim2SF_zero.
  destruct (Prim2SF m) as [s|s| |s k e]; try destruct s; cbn;
    unfold SFeqb, SFcompare; rewrite ?Z.compare_refl, ?Pos.compare_cont_refl; cbn;
    intuition congruence.
Qed.

Lemma eq_zero_not_gt x : (x =? 0) = true -> (0 <? x) = false.
Proof.
  rewrite eqb_spec, ltb_spec, Prim2SF_zero.
  destruct (Prim2SF x) as [s|s| |s k e]; try destruct s; cbn; congruence.
Qed.

(** [x == y] on a positive [y] is equality. *)
Lemma eqb_pos_eq x y : (x =? y) = true -> (0 <? y) = true -> x = y.
Proof.
  rewrite eqb_spec, ltb_spec, Prim2SF_zero. intros E P. apply Prim2SF_inj.
  destruct (Prim2SF x) as [s|s| |s m e], (Prim2SF y) as [s'|s'| |s' m' e'];
    try destruct s; try destruct s'; try discriminate; try reflexivity.
  revert E. unfold SFeqb, SFcompare.
  destruct (Z.compare_spec e e') as [->| |]; try discriminate.
  rewrite Pos.compare_cont_spec. cbn [Pos.switch_Eq].
  destruct (Pos.compare_spec m m') as [->| |]; try discriminate. reflexivity.
Qed.

Lemma div_eucl_mul z K : (0 < z)%Z -> Z.div_eucl (z * K) z = (K, 0%Z).
Proof.
  intros Hz.
  assert (E : Z.div_eucl (z * K) z = ((z * K) / z, (z * K) mod z)%Z).
  { unfold Z.div, Z.modulo. now destruct (Z.div_eucl (z * K) z). }
  rewrite E, (Z.mul_comm z K), Z.div_mul, Z.mod_mul by lia. reflexivity.
Qed.

Lemma new_location_zero n : new_location n 0 = loc_Exact.
Proof. unfold new_location. now destruct (Z.even n). Qed.

Lemma SFdiv_self s m e :
  SF64div (S754_finite s m e) (S754_finite s m e) =
  S754_finite false 4503599627370496 (-52).
Proof.
  unfold SF64div, SFdiv, SFdiv_core_binary.
  replace (Zdigits2 (Z.pos m) + e - (Zdigits2 (Z.pos m) + e))%Z with 0%Z by ring.
  rewrite Z.sub_diag.
  change (Z.min (fexp prec emax 0) 0) with (-53)%Z.
  change (0 - -53)%Z with 53%Z. cbv beta iota zeta.
  rewrite Z.shiftl_mul_pow2 by lia.
  rewrite div_eucl_mul by lia.
  rewrite new_location_zero, xorb_nilpotent. reflexivity.
Qed.

(** A positive finite number divided by itself is exactly 1. *)
Lemma div_self x : (0 <? x) = true -> is_infinity x = false -> x / x = 1.
Proof.
  intros Hpos Hfin. apply Prim2SF_inj. rewrite div_spec, Prim2SF_one.
  revert Hpos Hfin. unfold is_infinity. rewrite ltb_spec, eqb_spec, abs_spec.
  change (Prim2SF 0) with (S754_zero false).
  change (Prim2SF infinity) with (S754_infinity false).
  destruct (Prim2SF x) as [s|s| |s m e]; try destruct s; try discriminate.
  intros _ _. apply SFdiv_self.
Qed.

Lemma div_infinity_self : infinity / infinity = nan.
Proof. reflexivity. Qed.

Lemma SFmul_one s m e :
  bounded prec emax m e = true ->
  SF64mul (S754_finite s m e) (S754_finite false 4503599627370496 (-52)) =
  S754_finite s m e.
Proof.
  unfold bounded, canonical_mantissa. rewrite andb_true_iff, Z.eqb_eq, Z.leb_le.
  intros [Hc Hb].
  unfold SF64mul, SFmul. rewrite xorb_false_r, Pos.mul_comm.
  cbn [Pos.mul].
  unfold binary_round_aux, shr_fexp at 1.
  cbn [Zdigits2 digits2_pos].
  match goal with |- context [fexp prec emax (Z.pos ?d + (e + -52))] =>
    replace (Z.pos d + (e + -52))%Z with (Z.pos (digits2_pos m) + e)%Z by lia end.
  rewrite Hc. replace (e - (e + -52))%Z with 52%Z by lia.
  cbv [shr iter_pos shr_1 shr_record_of_loc shr_m shr_r shr_s loc_of_shr_record
       round_nearest_even orb].
  replace (e + -52 + 52)%Z with e by lia.
  unfold shr_fexp. cbn [Zdigits2]. rewrite Hc, Z.sub_diag.
  cbv [shr shr_record_of_loc shr_m].
  apply Z.leb_le in Hb. now rewrite Hb.
Qed.

(** Multiplying by 1 is exact. *)
Lemma mul_one_r x : x * 1 = x.
Proof.
  apply Prim2SF_inj. rewrite mul_spec, Prim2SF_one.
  pose proof (Prim2SF_valid x) as Hv.
  destruct (Prim2SF x) as [s|s| |s m e]; try reflexivity.
  - now rewrite <- (xorb_false_r s) at 2.
  - now rewrite <- (xorb_false_r s) at 2.
  - now apply SFmul_one.
Qed.

(** Sums that meet [NaN] stay [NaN]. *)
Lemma sum_from_nan l : fold_left (fun s c => s + c) l nan = nan.
Proof. induction l as [|c l IH]; cbn; [reflexivity|]. now rewrite add_nan_l. Qed.

Lemma sum_through_nan l1 l2 s :
  fold_left (fun s c => s + c) (l1 ++ nan :: l2) s = nan.
Proof. rewrite fold_left_app. cbn. rewrite add_nan_r. apply sum_from_nan. Qed.

(** The model of [Array.prototype.sort] rearranges and keeps every element. *)
Lemma insert_perm {A} (cmp : A -> A -> float) x l :
  Permutation (x :: l) (JS.insert cmp x l).
Proof.
  induction l as [|y l IH]; cbn [JS.insert]; [reflexivity|].
  destruct (JS.gt (cmp x y) 0); [|reflexivity].
  rewrite perm_swap. now constructor.
Qed.

Lemma sort_perm {A} (cmp : A -> A -> float) l : Permutation l (JS.sort cmp l).
Proof.
  induction l as [|x l IH]; cbn [JS.sort fold_right]; [constructor|].
  rewrite <- insert_perm. now constructor.
Qed.

Lemma sort_length {A} (cmp : A -> A -> float) l :
  List.length (JS.sort cmp l) = List.length l.
Proof. symmetry. apply Permutation_length, sort_perm. Qed.

(** *** Order *)

Lemma not_nan_spec x : is_nan x = false <-> Prim2SF x <> S754_nan.
Proof.
  split.
  - intros H E. assert (x = nan) by (apply Prim2SF_inj; now rewrite E).
    subst x. discriminate.
  - intros H. destruct (is_nan x) eqn:E; [|reflexivity].
    apply is_nan_spec in E. subst x. now destruct H.
Qed.

(** [<=] is transitive, and total on numbers. *)
Lemma leb_trans x y z : (x <=? y) = true -> (y <=? z) = true -> (x <=? z) = true.
Proof.
  rewrite !leb_spec, !SFleb_rank. intros (Hx & Hy & H1) (_ & Hz & H2).
  repeat split; try assumption. now apply lexle_trans with (rank (Prim2SF y)).
Qed.

Lemma ltb_leb x y : (x <? y) = true -> (x <=? y) = true.
Proof.
  rewrite ltb_spec, leb_spec. unfold SFltb, SFleb.
  now destruct (SFcompare (Prim2SF x) (Prim2SF y)) as [[]|].
Qed.

Lemma ltb_false_leb x y :
  is_nan x = false -> is_nan y = false -> (y <? x) = false -> (x <=? y) = true.
Proof.
  rewrite !not_nan_spec, ltb_spec, leb_spec. intros Hx Hy H.
  apply SFleb_rank. repeat split; try assumption. now apply SFltb_rank.
Qed.

(** For numbers, [x - y > 0] exactly when [x > y]. *)
Lemma sub_gt x y : (0 <? x - y) = (y <? x).
Proof.
  rewrite !ltb_spec, sub_spec. change (Prim2SF 0) with (S754_zero false).
  apply SFsub_gt; apply Prim2SF_valid.
Qed.

Lemma unsigned_not_nan x : unsigned x -> is_nan x = false.
Proof. intros H. apply not_nan_spec. now apply unsignedSF_not_nan. Qed.

(** The product of two positive numbers is unsigned. *)
Lemma mul_pos_unsigned a b : (0 <? a) = true -> (0 <? b) = true -> unsigned (a * b).
Proof.
  unfold unsigned. rewrite !ltb_spec, mul_spec. change (Prim2SF 0) with (S754_zero false).
  destruct (Prim2SF a) as [s|s| |s m e], (Prim2SF b) as [s'|s'| |s' m' e'];
    try destruct s; try destruct s'; try discriminate; intros _ _;
    cbn [SF64mul SFmul xorb].
  - right. now right.
  - right. now right.
  - right. now right.
  - apply binary_round_aux_unsigned. lia.
Qed.

Lemma leb_refl x : is_nan x = false -> (x <=? x) = true.
Proof.
  rewrite not_nan_spec, leb_spec. intros H. apply SFleb_rank.
  repeat split; try assumption. unfold lexle. lia.
Qed.

Lemma leb_antisym x y :
  unsigned x -> unsigned y -> (x <=? y) = true -> (y <=? x) = true -> x = y.
Proof.
  rewrite !leb_spec, !SFleb_rank. intros Ux Uy (_ & _ & H1) (_ & _ & H2).
  apply Prim2SF_inj, rank_unsigned_inj; try assumption. now apply lexle_antisym.
Qed.

(** The comparator [(a, b) => a - b] sorts numbers in ascending order. *)
Lemma insert_ascending x l :
  is_nan x = false -> Forall (fun y => is_nan y = false) l ->
  ascending l -> ascending (JS.insert (fun a b => a - b) x l).
Proof.
  intros Hx Hl Hs. induction Hs as [|y l Hs IH Hy]; cbn [JS.insert].
  - repeat constructor.
  - inversion Hl as [|? ? Ny Nl]; subst. unfold JS.gt. rewrite sub_gt.
    destruct (y <? x) eqn:E.
    + constructor; [now apply IH|].
      apply (Permutation_Forall (insert_perm _ x l)).
      constructor; [now apply ltb_leb | exact Hy].
    + assert (Hxy : (x <=? y) = true) by now apply ltb_false_leb.
      constructor; [now constructor|]. constructor; [exact Hxy|].
      eapply Forall_impl; [|exact Hy]. intros z Hz. cbv beta in Hz.
      now apply leb_trans with y.
Qed.

Lemma sort_ascending l :
  Forall (fun y => is_nan y = false) l -> ascending (JS.sort (fun a b => a - b) l).
Proof.
  induction 1 as [|x l Hx Hl IH]; cbn [JS.sort fold_right]; [constructor|].
  apply insert_ascending; [exact Hx| |exact IH].
  apply (Permutation_Forall (sort_perm _ l)). exact Hl.
Qed.

(** Unsigned numbers have one ascending arrangement. *)
Lemma ascending_unique s1 : forall s2,
  Permutation s1 s2 -> Forall unsigned s1 -> ascending s1 -> ascending s2 -> s1 = s2.
Proof.
  induction s1 as [|a s1 IH]; intros s2 HP HU H1 H2.
  - apply Permutation_nil in HP. now subst.
  - destruct s2 as [|b s2]; [apply Permutation_sym, Permutation_nil in HP; discriminate|].
    inversion H1 as [|? ? S1 F1]; inversion H2 as [|? ? S2 F2]; subst.
    inversion HU as [|? ? Ua Us]; subst.
    assert (HUb : Forall unsigned (b :: s2)) by (eapply Permutation_Forall; eassumption).
    inversion HUb as [|? ? Ub Us2]; subst.
    assert (Hab : (a <=? b) = true).
    { assert (Hin : In b (a :: s1))
        by (eapply Permutation_in; [apply Permutation_sym; exact HP | now left]).
      destruct Hin as [-> | Hin]; [now apply leb_refl, unsigned_not_nan|].
      rewrite Forall_forall in F1. now apply F1. }
    assert (Hba : (b <=? a) = true).
    { assert (Hin : In a (b :: s2)) by (eapply Permutation_in; [exact HP | now left]).
      destruct Hin as [-> | Hin]; [now apply leb_refl, unsigned_not_nan|].
      rewrite Forall_forall in F2. now apply F2. }
    assert (a = b) by now apply leb_antisym. subst b.
    f_equal. apply IH; try assumption. now apply Permutation_cons_inv in HP.
Qed.

End FloatFacts.

(** ** script.js: [computeEV] *)

Module ScriptProofs.
Import Script ScriptSpec FloatFacts.

Lemma resolve_length p l : List.length (resolveTicketValues p l) = List.length l.
Proof. apply length_map. Qed.

Lemma resolve_idem p l :
  resolveTicketValues p (resolveTicketValues p l) = resolveTicketValues p l.
Proof.
  unfold resolveTicketValues. rewrite map_map. apply map_ext.
  intros t. destruct (Tier.isTicket t) eqn:E; cbn; now rewrite E.
Qed.

Lemma usableAnchor_resolve p t : usableAnchor (resolveTier p t) = usableAnchor t.
Proof. unfold resolveTier. now destruct (Tier.isTicket t) eqn:E. Qed.

Lemma usableEstimate_resolve p t : usableEstimate (resolveTier p t) = usableEstimate t.
Proof. unfold resolveTier. now destruct (Tier.isTicket t). Qed.

Lemma find_resolve p l :
  find usableAnchor (resolveTicketValues p l) =
  option_map (resolveTier p) (find usableAnchor l).
Proof.
  induction l as [|t l IH]; [reflexivity|]. cbn.
  fold (resolveTier p t). rewrite usableAnchor_resolve.
  now destruct (usableAnchor t).
Qed.

Lemma tierEstimates_resolve p l :
  tierEstimates (resolveTicketValues p l) = tierEstimates l.
Proof.
  unfold tierEstimates, resolveTicketValues.
  induction l as [|t l IH]; [reflexivity|]. cbn [map filter].
  fold (resolveTier p t). rewrite usableEstimate_resolve.
  destruct (usableEstimate t); cbn [map]; rewrite IH; [|reflexivity].
  f_equal. unfold resolveTier. now destruct (Tier.isTicket t).
Qed.

Lemma methodA_resolve p l : methodA (resolveTicketValues p l) = methodA l.
Proof.
  unfold methodA. rewrite find_resolve.
  destruct (find usableAnchor l) as [t|]; [|reflexivity]. cbn.
  unfold resolveTier. now destruct (Tier.isTicket t).
Qed.

(** The pool estimate does not read the tier values. *)
Lemma estimatePool_resolve p l : estimatePool (resolveTicketValues p l) = estimatePool l.
Proof.
  unfold estimatePool, methodB. now rewrite methodA_resolve, tierEstimates_resolve.
Qed.

Lemma notPositive_gt m : notPositive (Some m) = false <-> JS.gt m 0 = true.
Proof. unfold notPositive, JS.truthy, JS.le, JS.gt. apply positive_iff. Qed.

Lemma usableAnchor_spec t : usableAnchor t = true <-> ticketAnchor t.
Proof.
  unfold usableAnchor, ticketAnchor.
  rewrite !andb_true_iff, negb_true_iff. tauto.
Qed.

Lemma anchorEstimate_find tiers :
  anchorEstimate tiers = option_map anchored (find usableAnchor tiers).
Proof. unfold anchorEstimate, methodA. now destruct (find usableAnchor tiers). Qed.

(** Method A stands when its estimate is positive. *)
Lemma estimatePool_anchor tiers m :
  anchorEstimate tiers = Some m -> JS.gt m 0 = true ->
  estimatePool tiers = (Some m, TicketAnchor).
Proof.
  unfold anchorEstimate, estimatePool, methodB. intros HA Hm.
  apply notPositive_gt in Hm. rewrite HA, Hm.
  unfold methodA in *. destruct (find usableAnchor tiers); [|discriminate].
  cbn in HA. now inversion HA.
Qed.

(** Method B replaces it otherwise, when some tier gives an estimate. *)
Lemma estimatePool_fallback tiers :
  notPositive (anchorEstimate tiers) = true ->
  fst (estimatePool tiers) =
    match medianEstimate tiers with
    | Some m => Some m
    | None => anchorEstimate tiers
    end /\
  (medianEstimate tiers <> None -> snd (estimatePool tiers) = MedianFallback).
Proof.
  unfold anchorEstimate, estimatePool, methodB, medianEstimate. intros ->.
  destruct (tierEstimates tiers) as [|x l]; cbn [List.length Nat.ltb Nat.leb fst snd].
  - split; [reflexivity | congruence].
  - split; reflexivity.
Qed.

(** The estimate is positive exactly when one strategy gives a positive one. *)
Lemma estimatePool_positive tiers :
  notPositive (fst (estimatePool tiers)) = false <-> yieldsPositive tiers.
Proof.
  destruct (notPositive (anchorEstimate tiers)) eqn:NA.
  - destruct (estimatePool_fallback tiers NA) as [-> _].
    unfold yieldsPositive, yields.
    destruct (medianEstimate tiers) as [m|] eqn:ME.
    + rewrite notPositive_gt. split.
      * intros H. exists m. split; [now right | exact H].
      * intros (m' & [HA | HM] & Hp).
        -- rewrite HA in NA. apply notPositive_gt in Hp. congruence.
        -- now inversion HM; subst m'.
    + split; [congruence|]. intros (m' & [HA | HM] & Hp); [|discriminate].
      rewrite HA in NA. apply notPositive_gt in Hp. congruence.
  - destruct (anchorEstimate tiers) as [m|] eqn:HA; [|discriminate].
    pose proof NA as Hp. apply notPositive_gt in Hp.
    rewrite (estimatePool_anchor tiers m HA Hp). cbn [fst]. split; [|auto].
    intros _. exists m. split; [now left | exact Hp].
Qed.

Section Engine.
Variable formatNum : float -> string.

Lemma tierLoop_fold i d r M l acc s :
  fold_left (tierLoop formatNum i d r M) l (acc, s) =
  (acc ++ map (tierResult formatNum i d r M) l,
   fold_left (fun s c => s + c)
     (map (fun t => TierResult.evContribution (tierResult formatNum i d r M t)) l) s).
Proof.
  revert acc s. induction l as [|t l IH]; intros acc s; cbn.
  - now rewrite app_nil_r.
  - unfold tierLoop at 2. cbn [fst snd]. rewrite IH, <- app_assoc. reflexivity.
Qed.

Lemma computeEV_missing g o :
  precondition g = false -> computeEV formatNum g o = (Error MissingPrecondition, g).
Proof.
  unfold precondition, computeEV. intros H.
  destruct (JS.truthy (Game.ticketPrice g)); cbn in *; [|reflexivity].
  apply negb_false_iff in H. now rewrite H.
Qed.

Lemma computeEV_failure g o :
  precondition g = true -> notPositive (fst (estimatePool (Game.tiers g))) = true ->
  computeEV formatNum g o = (Error EstimationFailure, resolved g).
Proof.
  unfold precondition, computeEV. intros H HM.
  apply andb_true_iff in H as [H1 H2]. apply negb_true_iff in H2.
  rewrite H1, H2. cbn [negb orb]. rewrite estimatePool_resolve.
  destruct (estimatePool (Game.tiers g)) as [[M|] method]; [|reflexivity].
  cbn [fst] in HM. now rewrite HM.
Qed.

Lemma computeEV_result g o M method :
  precondition g = true -> estimatePool (Game.tiers g) = (Some M, method) ->
  notPositive (Some M) = false ->
  computeEV formatNum g o =
  (Result (resultOf formatNum o (Game.ticketPrice g)
             (resolveTicketValues (Game.ticketPrice g) (Game.tiers g)) M method),
   resolved g).
Proof.
  unfold precondition, computeEV. intros H HE HM.
  apply andb_true_iff in H as [H1 H2]. apply negb_true_iff in H2.
  rewrite H1, H2. cbn [negb orb]. rewrite estimatePool_resolve, HE, HM.
  rewrite tierLoop_fold. reflexivity.
Qed.

(** Every call ends in one of three ways. *)
Lemma computeEV_cases g o :
  (precondition g = false /\
   computeEV formatNum g o = (Error MissingPrecondition, g)) \/
  (precondition g = true /\
   notPositive (fst (estimatePool (Game.tiers g))) = true /\
   computeEV formatNum g o = (Error EstimationFailure, resolved g)) \/
  (exists M method,
     precondition g = true /\ estimatePool (Game.tiers g) = (Some M, method) /\
     notPositive (Some M) = false /\
     computeEV formatNum g o =
     (Result (resultOf formatNum o (Game.ticketPrice g)
                (resolveTicketValues (Game.ticketPrice g) (Game.tiers g)) M method),
      resolved g)).
Proof.
  destruct (precondition g) eqn:P.
  - right. destruct (notPositive (fst (estimatePool (Game.tiers g)))) eqn:N.
    + left. auto using computeEV_failure.
    + right. destruct (estimatePool (Game.tiers g)) as [[M|] method] eqn:E;
        [|discriminate]. exists M, method. auto using computeEV_result.
  - left. auto using computeEV_missing.
Qed.

Lemma precondition_resolved g : precondition (resolved g) = precondition g.
Proof. unfold precondition, resolved. cbn. now rewrite resolve_length. Qed.

Lemma resolved_idem g : resolved (resolved g) = resolved g.
Proof.
  destruct g as [n nb p co cc ts]. unfold resolved, Game.setTiers.
  cbn [Game.tiers Game.ticketPrice Game.name Game.number Game.claimedOdds
       Game.claimedCashOdds].
  now rewrite resolve_idem.
Qed.


(** *** The ticket-tier anchor *)

Lemma find_first {A} (f : A -> bool) l1 x l2 :
  f x = true -> (forall y, In y l1 -> f y = false) ->
  find f (l1 ++ x :: l2) = Some x.
Proof.
  intros Hx. induction l1 as [|y l1 IH]; intros Hl; cbn.
  - now rewrite Hx.
  - rewrite (Hl y) by now left. apply IH. intros z Hz. apply Hl. now right.
Qed.

Lemma infinite_positive x : is_infinity x = true -> (0 <? x) = true -> x = infinity.
Proof.
  unfold is_infinity. rewrite eqb_spec, abs_spec, ltb_spec, Prim2SF_zero.
  change (Prim2SF infinity) with (S754_infinity false).
  intros HI HP. apply Prim2SF_inj. change (Prim2SF infinity) with (S754_infinity false).
  destruct (Prim2SF x) as [s|s| |s m e]; try destruct s; try discriminate; reflexivity.
Qed.

(** With [remaining == total] the anchored pool is [total * odds],
    unless [total] is infinite, when it is [NaN]. *)
Lemma anchored_full t :
  JS.gt (Tier.total t) 0 = true -> JS.seq (Tier.remaining t) (Tier.total t) = true ->
  JS.gt (anchored t) 0 = true ->
  anchored t = Tier.total t * Tier.odds t.
Proof.
  unfold JS.gt, JS.seq, anchored. intros HT HE HM.
  rewrite (eqb_pos_eq _ _ HE HT) in *.
  destruct (is_infinity (Tier.total t)) eqn:HI.
  - rewrite (infinite_positive _ HI HT), div_infinity_self, mul_nan_r in HM.
    discriminate.
  - now rewrite (div_self _ HT HI), mul_one_r.
Qed.

(** C1 (amended). For every game with a ticket price, if [t] is the
    first ticket tier with [total > 0], [remaining > 0] and numeric odds,
    and the pool it anchors, [(total * odds) * (remaining / total)], is
    positive, then the estimator selects the ticket-tier anchor and
    [computeEV] returns that pool as [M]; when [remaining == total], [M]
    equals [total * odds] exactly. *)
Theorem C1_ticket_anchor (g : Game.t) (o : Options.t) (l1 l2 : list Tier.t) (t : Tier.t) :
  JS.truthy (Game.ticketPrice g) = true ->
  Game.tiers g = l1 ++ t :: l2 ->
  ticketAnchor t ->
  (forall t', In t' l1 -> ~ ticketAnchor t') ->
  JS.gt (anchored t) 0 = true ->
  estimatePool (Game.tiers g) = (Some (anchored t), TicketAnchor) /\
  (exists r, fst (computeEV formatNum g o) = Result r /\
             EVResult.method r = TicketAnchor /\
             EVResult.M r = (Tier.total t * Tier.odds t) * (Tier.remaining t / Tier.total t)) /\
  (JS.seq (Tier.remaining t) (Tier.total t) = true ->
   exists r, fst (computeEV formatNum g o) = Result r /\
             EVResult.M r = Tier.total t * Tier.odds t).
Proof.
  intros HP HT HA HF HM.
  assert (HFind : find usableAnchor (Game.tiers g) = Some t).
  { rewrite HT. apply find_first; [now apply usableAnchor_spec|].
    intros y Hy. destruct (usableAnchor y) eqn:E; [|reflexivity].
    apply usableAnchor_spec in E. now destruct (HF y Hy). }
  assert (HE : estimatePool (Game.tiers g) = (Some (anchored t), TicketAnchor)).
  { apply estimatePool_anchor; [|exact HM].
    now rewrite anchorEstimate_find, HFind. }
  assert (HPre : precondition g = true).
  { unfold precondition. rewrite HP, HT, length_app. cbn.
    now rewrite Nat.add_succ_r. }
  pose proof (computeEV_result g o _ _ HPre HE (proj2 (notPositive_gt _) HM)) as HR.
  split; [exact HE|]. split.
  - eexists. rewrite HR. cbn [fst]. repeat split.
  - intros HEq. eexists. rewrite HR. cbn [fst]. split; [reflexivity|].
    cbn [resultOf EVResult.M]. destruct HA as (_ & HTot & _).
    now apply anchored_full.
Qed.

End Engine.

Lemma C1_ticket_anchor_witness :
  exists r, fst (computeEV noFormat freshGame plain) = Result r /\
            EVResult.M r = 100 * 12.
Proof.
  refine (proj2 (proj2 (C1_ticket_anchor noFormat freshGame plain
                          [cash 1000 50 10 20] [] (ticket 12 100 100) _ _ _ _ _)) _);
    try reflexivity.
  - repeat split.
  - intros t' [<- | []] (H & _). discriminate.
Defined.

(** The sentence on the anchor fails where the ticket tier's odds are 0: the
    anchor gives [M = 0] and the median fallback takes over. *)
Lemma C1_counterexample : ~ anchorAlwaysSelected noFormat zeroOdds plain.
Proof.
  intros H. destruct (H (ticket 0 5 10)) as (r & HR & HMeth & _).
  - now left.
  - repeat split.
  - vm_compute in HR. inversion HR; subst r. discriminate.
Qed.

(** *** The adjustment pipeline and the aggregation *)

Lemma adjust_pipeline i d r t :
  adjust i d r t =
  if Tier.isTicket t then Tier.value t else pipeline i d r (Tier.value t).
Proof.
  unfold adjust, pipeline, taxed, zeroUnder500.
  destruct (Tier.isTicket t); cbn [negb andb]; now rewrite ?andb_false_r, ?andb_true_r.
Qed.

Lemma adjustValue_pipeline v isTicket so :
  Scratchers.adjustValue v isTicket so =
  if isTicket then v
  else pipeline (Scratchers.Options.ignoreUnder500 so) (Scratchers.Options.applyTax so)
         (Scratchers.Options.taxRate so) v.
Proof.
  unfold Scratchers.adjustValue, pipeline, taxed, zeroUnder500.
  destruct isTicket; cbn [negb andb]; now rewrite ?andb_false_r, ?andb_true_r.
Qed.

Lemma resolved_value p t :
  Tier.value (resolveTier p t) = if Tier.isTicket t then p else Tier.value t.
Proof. unfold resolveTier. now destruct (Tier.isTicket t). Qed.

Lemma resolved_isTicket p t : Tier.isTicket (resolveTier p t) = Tier.isTicket t.
Proof. unfold resolveTier. now destruct (Tier.isTicket t) eqn:E. Qed.

Lemma resolved_remaining p t : Tier.remaining (resolveTier p t) = Tier.remaining t.
Proof. unfold resolveTier. now destruct (Tier.isTicket t). Qed.

(** The tier results line up with the tiers of the game. *)
Lemma results_aligned (P : Tier.t -> TierResult.t -> Prop) f p l :
  (forall t, P t (f (resolveTier p t))) ->
  Forall2 P l (map f (resolveTicketValues p l)).
Proof. intros H. induction l; cbn; constructor; auto. Qed.

(** C2. In [computeEV] a non-ticket tier is adjusted in a fixed order:
    first zeroed when [ignoreUnder500] is set and [0 < value < 500], then,
    when [applyTax] is set and the value is still positive, multiplied by
    [1 - taxRate/100]; a ticket tier skips both and is worth the ticket
    price. Each contribution is [(remaining / M) * adjustedValue], gross
    EV is their sum over all tiers, net EV is gross EV minus the ticket
    price; [adjustValue] of scratchers.js adjusts in the same order. *)
Theorem C2_adjustment_order (formatNum : float -> string)
    (g : Game.t) (o : Options.t) (r : EVResult.t) :
  fst (computeEV formatNum g o) = Result r ->
  Forall2
    (fun t tr =>
       TierResult.adjustedValue tr =
         (if Tier.isTicket t then Game.ticketPrice g
          else taxed (Options.applyTax o) (Options.taxRate o)
                 (zeroUnder500 (Options.ignoreUnder500 o) (Tier.value t))) /\
       TierResult.probability tr = Tier.remaining t / EVResult.M r /\
       TierResult.evContribution tr =
         (Tier.remaining t / EVResult.M r) * TierResult.adjustedValue tr)
    (Game.tiers g) (EVResult.tiers r) /\
  EVResult.evGross r =
    fold_left (fun s c => s + c) (map TierResult.evContribution (EVResult.tiers r)) 0 /\
  EVResult.evNet r = EVResult.evGross r - Game.ticketPrice g /\
  (forall v so,
     Scratchers.adjustValue v true so = v /\
     Scratchers.adjustValue v false so =
       taxed (Scratchers.Options.applyTax so) (Scratchers.Options.taxRate so)
         (zeroUnder500 (Scratchers.Options.ignoreUnder500 so) v)).
Proof.
  intros HR.
  destruct (computeEV_cases formatNum g o)
    as [[_ E] | [(_ & _ & E) | (M & method & _ & _ & _ & E)]];
    rewrite E in HR; cbn [fst] in HR; try discriminate.
  inversion HR; subst r; clear HR E. cbn [resultOf EVResult.tiers EVResult.M
    EVResult.evGross EVResult.evNet]. repeat split.
  - apply results_aligned. intros t.
    cbn [tierResult TierResult.adjustedValue TierResult.probability
         TierResult.evContribution].
    rewrite adjust_pipeline, resolved_value.
    rewrite resolved_isTicket, resolved_remaining. now destruct (Tier.isTicket t).
  - now rewrite map_map.
  - now rewrite adjustValue_pipeline.
  - now rewrite adjustValue_pipeline.
Qed.

Lemma C2_adjustment_order_witness :
  exists r, fst (computeEV noFormat springGreen strict) = Result r /\
            EVResult.evNet r = EVResult.evGross r - 2.
Proof.
  eexists. split; [reflexivity|].
  exact (proj1 (proj2 (proj2 (C2_adjustment_order noFormat springGreen strict _ eq_refl)))).
Defined.

(** *** A ticket tier with nothing remaining *)

Lemma find_none_all {A} (f : A -> bool) l :
  (forall x, In x l -> f x = false) -> find f l = None.
Proof.
  induction l as [|y l IH]; intros H; cbn; [reflexivity|].
  rewrite (H y) by now left. apply IH. intros x Hx. apply H. now right.
Qed.

Lemma soldOut_unusable t :
  JS.seq (Tier.remaining t) 0 = true -> usableAnchor t = false /\ usableEstimate t = false.
Proof.
  unfold JS.seq, usableAnchor, usableEstimate, JS.gt. intros H.
  rewrite (eq_zero_not_gt _ H). cbn. now rewrite !andb_false_r.
Qed.

(** C5 (amended). When every ticket tier of a game that passes the
    precondition has [remaining == 0], the ticket-tier anchor is not
    applied and computes no [M]; a ticket tier with nothing remaining adds
    no estimate to the median fallback either. Estimation then fails, and
    no EV is computed, when no tier gives a fallback estimate; any result
    that is returned comes from the median fallback. *)
Theorem C5_sold_out_ticket (formatNum : float -> string) (g : Game.t) (o : Options.t) :
  precondition g = true ->
  (forall t, In t (Game.tiers g) -> Tier.isTicket t = true ->
             JS.seq (Tier.remaining t) 0 = true) ->
  methodA (Game.tiers g) = (None, EmptyString) /\
  (forall t, In t (Game.tiers g) -> Tier.isTicket t = true -> usableEstimate t = false) /\
  (tierEstimates (Game.tiers g) = [] ->
   fst (computeEV formatNum g o) = Error EstimationFailure) /\
  (forall r, fst (computeEV formatNum g o) = Result r ->
             EVResult.method r = MedianFallback /\
             medianEstimate (Game.tiers g) = Some (EVResult.M r)).
Proof.
  intros HPre HZ.
  assert (HF : find usableAnchor (Game.tiers g) = None).
  { apply find_none_all. intros t Ht. destruct (Tier.isTicket t) eqn:E.
    - now apply soldOut_unusable, HZ.
    - unfold usableAnchor. now rewrite E. }
  assert (HA : methodA (Game.tiers g) = (None, EmptyString))
    by (unfold methodA; now rewrite HF).
  assert (HN : notPositive (anchorEstimate (Game.tiers g)) = true)
    by (unfold anchorEstimate; now rewrite HA).
  destruct (estimatePool_fallback _ HN) as [HM HMeth].
  split; [exact HA|]. split; [|split].
  - intros t Ht HT. now apply soldOut_unusable, HZ.
  - intros HE. rewrite computeEV_failure; [reflexivity | exact HPre |].
    rewrite HM. unfold medianEstimate. rewrite HE. exact HN.
  - intros r HR.
    destruct (computeEV_cases formatNum g o)
      as [[_ E] | [(_ & _ & E) | (M & method & _ & HE & HP & E)]];
      rewrite E in HR; cbn [fst] in HR; try discriminate.
    inversion HR; subst r; clear HR E. cbn [resultOf EVResult.method EVResult.M].
    rewrite HE in HM, HMeth. cbn [fst snd] in HM, HMeth.
    destruct (medianEstimate (Game.tiers g)) as [m|] eqn:ME.
    + split; [apply HMeth; discriminate | congruence].
    + unfold anchorEstimate in HM. rewrite HA in HM. discriminate.
Qed.

Lemma C5_sold_out_ticket_witness :
  fst (computeEV noFormat onlySoldOut plain) = Error EstimationFailure.
Proof.
  refine (proj1 (proj2 (proj2 (C5_sold_out_ticket noFormat onlySoldOut plain _ _))) _);
    try reflexivity.
  intros t [<- | []] _. reflexivity.
Defined.

(** The sentence on a ticket tier with nothing remaining fails next to a
    cash tier: no [M] comes from the ticket tier, and the median fallback
    returns an EV. *)
Lemma C5_counterexample : ~ emptyTicketTierFails noFormat soldOutTicket plain.
Proof.
  intros H. destruct (H (ticket 12 0 100)) as [_ HE]; try reflexivity.
  - now left.
  - vm_compute in HE. discriminate HE.
Qed.

(** *** Failure states *)

Lemma error_messages_differ : EstimationFailure <> MissingPrecondition.
Proof. discriminate. Qed.

(** C8 (amended). [computeEV] is total and returns its failure states as
    values: with a missing or zero ticket price, or an empty tier list, it
    returns the precondition message, no partial result, and leaves the
    game as it was; otherwise, when no strategy yields a positive [M], it
    returns the distinct estimation-failure message; and whenever some
    strategy yields a positive [M], finite or not, it returns a result,
    whose [M] is positive. *)
Theorem C8_failure_values (formatNum : float -> string) (g : Game.t) (o : Options.t) :
  (precondition g = false ->
   computeEV formatNum g o = (Error MissingPrecondition, g)) /\
  (precondition g = true -> ~ yieldsPositive (Game.tiers g) ->
   fst (computeEV formatNum g o) = Error EstimationFailure /\
   EstimationFailure <> MissingPrecondition) /\
  (precondition g = true -> yieldsPositive (Game.tiers g) ->
   exists r, fst (computeEV formatNum g o) = Result r /\ JS.gt (EVResult.M r) 0 = true).
Proof.
  split; [apply computeEV_missing|]. split.
  - intros HPre HN. split; [|apply error_messages_differ].
    rewrite computeEV_failure; [reflexivity | exact HPre |].
    destruct (notPositive _) eqn:E; [reflexivity|].
    now apply estimatePool_positive in E.
  - intros HPre HY. apply estimatePool_positive in HY.
    destruct (computeEV_cases formatNum g o)
      as [[P _] | [(_ & N & _) | (M & method & _ & _ & HP & E)]]; try congruence.
    eexists. rewrite E. split; [reflexivity|]. now apply notPositive_gt.
Qed.

Lemma C8_failure_values_witness :
  (fst (computeEV noFormat noPrice plain) = Error MissingPrecondition) /\
  (fst (computeEV noFormat onlySoldOut plain) = Error EstimationFailure) /\
  (exists r, fst (computeEV noFormat cashOnly plain) = Result r /\
             JS.gt (EVResult.M r) 0 = true).
Proof.
  split; [|split].
  - now rewrite (proj1 (C8_failure_values noFormat noPrice plain) eq_refl).
  - refine (proj1 (proj1 (proj2 (C8_failure_values noFormat onlySoldOut plain)) eq_refl _)).
    intros (m & [H | H] & _); discriminate H.
  - refine (proj2 (proj2 (C8_failure_values noFormat cashOnly plain)) eq_refl _).
    exists 1100. split; [now right | reflexivity].
Defined.

(** The sentence on estimation failure fails where the only estimates are
    infinite: no strategy yields a positive finite [M], yet a result is
    returned. *)
Lemma C8_counterexample : ~ failsUnlessPositiveFinite noFormat infiniteOdds plain.
Proof.
  intros H. destruct (H eq_refl) as [HF _].
  assert (HN : ~ yieldsPositiveFinite (Game.tiers infiniteOdds)).
  { intros (m & [HY | HY] & _ & HFin); vm_compute in HY; inversion HY; subst m;
      discriminate HFin. }
  specialize (HF HN). vm_compute in HF. discriminate HF.
Qed.

(** *** Recomputation *)

Lemma resolved_price g : Game.ticketPrice (resolved g) = Game.ticketPrice g.
Proof. reflexivity. Qed.

Lemma resolved_tiers g :
  Game.tiers (resolved g) = resolveTicketValues (Game.ticketPrice g) (Game.tiers g).
Proof. reflexivity. Qed.

(** C9. A second call of [computeEV] on the game object the first call
    left behind, with the same options, returns the same outcome, field for
    field, and leaves the object as it found it: resolving the ticket-tier
    values in place does not change what the next call computes. *)
Theorem C9_recompute (formatNum : float -> string) (g : Game.t) (o : Options.t) :
  computeEV formatNum (snd (computeEV formatNum g o)) o = computeEV formatNum g o.
Proof.
  destruct (computeEV_cases formatNum g o)
    as [[P E] | [(P & N & E) | (M & method & P & HE & HP & E)]];
    rewrite E; cbn [snd].
  - exact E.
  - rewrite (computeEV_failure formatNum (resolved g) o).
    + now rewrite resolved_idem.
    + now rewrite precondition_resolved.
    + now rewrite resolved_tiers, estimatePool_resolve.
  - rewrite (computeEV_result formatNum (resolved g) o M method).
    + now rewrite resolved_idem, resolved_price, resolved_tiers, resolve_idem.
    + now rewrite precondition_resolved.
    + now rewrite resolved_tiers, estimatePool_resolve.
    + exact HP.
Qed.

(** *** Unparsed prize values *)

Lemma adjust_nan i d r t :
  Tier.isTicket t = false -> JS.isNaN (Tier.value t) = true -> adjust i d r t = nan.
Proof.
  unfold JS.isNaN. intros HT HN. apply is_nan_spec in HN.
  unfold adjust. rewrite HN, HT. cbn. now rewrite !andb_false_r.
Qed.

Lemma nth_error_resolve p l i t :
  nth_error l i = Some t ->
  nth_error (resolveTicketValues p l) i = Some (resolveTier p t).
Proof. intros H. unfold resolveTicketValues. now rewrite nth_error_map, H. Qed.

(** A tier collected from a row whose label is no ticket label and does
    not parse as a number carries [value = NaN]. *)
Lemma collectRow_unparsed (parseFloat parseInt : string -> float) row t :
  collectRow parseFloat parseInt row = Some t ->
  isTicketTier (JS.trim (Row.prize row)) = false ->
  JS.isNaN (parseFloat (JS.stripCurrency (JS.trim (Row.prize row)))) = true ->
  Tier.isTicket t = false /\ JS.isNaN (Tier.value t) = true.
Proof.
  unfold collectRow. intros H HT HN.
  destruct (negb (JS.truthyValue (JS.Str (JS.trim (Row.prize row)))) || _) eqn:E;
    [discriminate|].
  apply orb_false_iff in E as [E _].
  inversion H; subst t; clear H. cbn [Tier.isTicket Tier.value]. rewrite HT.
  split; [reflexivity|]. cbn [JS.truthyValue] in E. now rewrite E.
Qed.

(** C10. When a game that passes the precondition and whose pool is
    estimated contains a non-ticket tier whose value is [NaN], no error is
    returned and that tier is not dropped: whatever the options, its
    adjusted value and its EV contribution are [NaN], and with them the
    gross EV and the net EV of the result. *)
Theorem C10_nan_propagates (formatNum : float -> string) (g : Game.t) (o : Options.t)
    (i : nat) (t : Tier.t) :
  precondition g = true ->
  notPositive (fst (estimatePool (Game.tiers g))) = false ->
  nth_error (Game.tiers g) i = Some t ->
  Tier.isTicket t = false ->
  JS.isNaN (Tier.value t) = true ->
  exists r tr,
    fst (computeEV formatNum g o) = Result r /\
    List.length (EVResult.tiers r) = List.length (Game.tiers g) /\
    nth_error (EVResult.tiers r) i = Some tr /\
    TierResult.prize tr = Tier.prize t /\
    JS.isNaN (TierResult.value tr) = true /\
    TierResult.adjustedValue tr = nan /\
    TierResult.evContribution tr = nan /\
    EVResult.evGross r = nan /\
    EVResult.evNet r = nan.
Proof.
  intros HPre HPos Hi HT HN.
  destruct (computeEV_cases formatNum g o)
    as [[P _] | [(_ & N & _) | (M & method & _ & _ & _ & E)]]; try congruence.
  assert (HR : resolveTier (Game.ticketPrice g) t = t)
    by (unfold resolveTier; now rewrite HT).
  pose proof (nth_error_resolve (Game.ticketPrice g) _ _ _ Hi) as Hi'.
  rewrite HR in Hi'.
  set (f := tierResult formatNum (Options.ignoreUnder500 o) (Options.applyTax o)
              (Options.taxRate o) M) in *.
  assert (HC : TierResult.evContribution (f t) = nan).
  { unfold f. cbn [tierResult TierResult.evContribution].
    now rewrite adjust_nan, mul_nan_r. }
  assert (HG : EVResult.evGross
                 (resultOf formatNum o (Game.ticketPrice g)
                    (resolveTicketValues (Game.ticketPrice g) (Game.tiers g)) M method)
               = nan).
  { cbn [resultOf EVResult.evGross]. fold f.
    destruct (nth_error_split _ _ Hi') as (l1 & l2 & -> & _).
    rewrite map_app. cbn [map]. rewrite HC. apply sum_through_nan. }
  exists (resultOf formatNum o (Game.ticketPrice g)
            (resolveTicketValues (Game.ticketPrice g) (Game.tiers g)) M method), (f t).
  rewrite E. cbn [fst]. split; [reflexivity|].
  split; [cbn [resultOf EVResult.tiers]; now rewrite length_map, resolve_length|].
  split; [cbn [resultOf EVResult.tiers]; fold f; now rewrite nth_error_map, Hi'|].
  split; [reflexivity|]. split; [exact HN|].
  split; [unfold f; cbn [tierResult TierResult.adjustedValue]; now apply adjust_nan|].
  split; [exact HC|]. split; [exact HG|].
  change (EVResult.evNet (resultOf formatNum o (Game.ticketPrice g)
            (resolveTicketValues (Game.ticketPrice g) (Game.tiers g)) M method))
    with (EVResult.evGross (resultOf formatNum o (Game.ticketPrice g)
            (resolveTicketValues (Game.ticketPrice g) (Game.tiers g)) M method)
          - Game.ticketPrice g).
  rewrite HG. apply sub_nan_l.
Qed.

Lemma C10_nan_propagates_witness :
  exists r tr,
    fst (computeEV noFormat unparsed strict) = Result r /\
    List.length (EVResult.tiers r) = 2%nat /\
    nth_error (EVResult.tiers r) 0 = Some tr /\
    TierResult.prize tr = "cash"%string /\
    JS.isNaN (TierResult.value tr) = true /\
    TierResult.adjustedValue tr = nan /\
    TierResult.evContribution tr = nan /\
    EVResult.evGross r = nan /\
    EVResult.evNet r = nan.
Proof.
  exact (C10_nan_propagates noFormat unparsed strict 0 (cash nan 50 10 20)
           eq_refl eq_refl eq_refl eq_refl eq_refl).
Defined.
(** *** The median fallback *)

Lemma even_mod2 n : Nat.even n = Nat.eqb (Nat.modulo n 2) 0.
Proof.
  pose proof (Nat.div_mod_eq n 2) as E.
  pose proof (Nat.mod_upper_bound n 2 ltac:(lia)) as B.
  destruct (Nat.modulo n 2) as [|[|k]] eqn:M; try lia; rewrite E at 1.
  - now rewrite Nat.add_0_r, Nat.even_mul.
  - rewrite Nat.even_add, Nat.even_mul. reflexivity.
Qed.

Lemma middle_middleOf s : middle s = middleOf s.
Proof. unfold middle, middleOf. now rewrite even_mod2. Qed.

(** The implied pools are products of positive numbers. *)
Lemma tierEstimates_unsigned tiers : Forall Order.unsigned (tierEstimates tiers).
Proof.
  unfold tierEstimates. induction tiers as [|t tiers IH]; cbn [filter map]; [constructor|].
  destruct (usableEstimate t) eqn:E; [|exact IH]. cbn [map]. constructor; [|exact IH].
  unfold usableEstimate, JS.gt in E. apply andb_true_iff in E as [E Ho].
  apply andb_true_iff in E as [Hr _]. now apply mul_pos_unsigned.
Qed.

(** The sorted estimates are the one ascending arrangement of the estimates. *)
Lemma median_of_estimates tiers :
  tierEstimates tiers <> [] ->
  exists M, medianEstimate tiers = Some M /\
            isMedian (tierEstimates tiers) M /\
            (forall m, isMedian (tierEstimates tiers) m -> m = M).
Proof.
  intros HN. pose proof (tierEstimates_unsigned tiers) as HU.
  set (l := tierEstimates tiers) in *.
  set (s := JS.sort (fun a b => a - b) l).
  assert (HP : Permutation l s) by apply sort_perm.
  assert (HS : Order.ascending s).
  { apply sort_ascending. eapply Forall_impl; [|exact HU].
    intros x. apply unsigned_not_nan. }
  exists (middle s). split; [|split].
  - unfold medianEstimate. fold l. destruct l; [congruence | reflexivity].
  - exists s. repeat split; try assumption. apply middle_middleOf.
  - intros m (s' & HP' & HS' & ->). rewrite middle_middleOf. f_equal.
    apply ascending_unique; try assumption.
    + now rewrite <- HP'.
    + eapply Permutation_Forall; eassumption.
Qed.

(** C4. For every game where no ticket tier has [total > 0],
    [remaining > 0] and numeric odds, or where the anchor of the first such
    tier yields [M <= 0], and where some tier has [remaining > 0] and
    numeric positive odds, the estimator returns, by the median fallback,
    the median of [remaining * odds] over those tiers: the middle value of
    their ascending arrangement, the mean of the two middle values when
    their number is even. [computeEV] returns it as [M] when the game has
    a price and the median is positive. *)
Theorem C4_median_fallback (formatNum : float -> string) (g : Game.t) (o : Options.t) :
  ((forall t, In t (Game.tiers g) -> ~ ticketAnchor t) \/
   (exists l1 t l2, Game.tiers g = l1 ++ t :: l2 /\ ticketAnchor t /\
                    (forall t', In t' l1 -> ~ ticketAnchor t') /\
                    JS.le (anchored t) 0 = true)) ->
  (exists t, In t (Game.tiers g) /\ JS.gt (Tier.remaining t) 0 = true /\
             JS.isNaN (Tier.odds t) = false /\ JS.gt (Tier.odds t) 0 = true) ->
  exists M,
    estimatePool (Game.tiers g) = (Some M, MedianFallback) /\
    isMedian
      (map (fun t => Tier.remaining t * Tier.odds t)
         (filter (fun t => JS.gt (Tier.remaining t) 0 && negb (JS.isNaN (Tier.odds t))
                           && JS.gt (Tier.odds t) 0) (Game.tiers g))) M /\
    (forall m,
       isMedian
         (map (fun t => Tier.remaining t * Tier.odds t)
            (filter (fun t => JS.gt (Tier.remaining t) 0 && negb (JS.isNaN (Tier.odds t))
                              && JS.gt (Tier.odds t) 0) (Game.tiers g))) m ->
       m = M) /\
    (JS.truthy (Game.ticketPrice g) = true -> JS.gt M 0 = true ->
     exists r, fst (computeEV formatNum g o) = Result r /\
               EVResult.M r = M /\ EVResult.method r = MedianFallback).
Proof.
  intros HA (t0 & Hin & Hr & Hn & Ho).
  assert (HN : notPositive (anchorEstimate (Game.tiers g)) = true).
  { rewrite anchorEstimate_find. destruct HA as [HA | (l1 & t & l2 & HT & Ht & Hl & HM)].
    - rewrite find_none_all; [reflexivity|]. intros t Ht.
      destruct (usableAnchor t) eqn:E; [|reflexivity].
      apply usableAnchor_spec in E. now destruct (HA t Ht).
    - rewrite HT, find_first.
      + cbn [option_map notPositive]. rewrite HM. apply orb_true_r.
      + now apply usableAnchor_spec.
      + intros y Hy. destruct (usableAnchor y) eqn:E; [|reflexivity].
        apply usableAnchor_spec in E. now destruct (Hl y Hy). }
  assert (HE : tierEstimates (Game.tiers g) <> []).
  { unfold tierEstimates. intros E. apply map_eq_nil in E.
    assert (Hf : In t0 (filter usableEstimate (Game.tiers g))).
    { apply filter_In. split; [exact Hin|]. unfold usableEstimate. now rewrite Hr, Hn, Ho. }
    rewrite E in Hf. destruct Hf. }
  destruct (median_of_estimates _ HE) as (M & HM & HMed & HUniq).
  destruct (estimatePool_fallback _ HN) as [H1 H2]. rewrite HM in H1, H2.
  assert (HP : estimatePool (Game.tiers g) = (Some M, MedianFallback)).
  { destruct (estimatePool (Game.tiers g)) as [m meth]. cbn [fst snd] in *.
    rewrite H1, H2; [reflexivity | discriminate]. }
  exists M. split; [exact HP|]. split; [exact HMed|]. split; [exact HUniq|].
  intros HPrice HPos.
  assert (HPre : precondition g = true).
  { unfold precondition. rewrite HPrice. destruct (Game.tiers g); [destruct Hin | reflexivity]. }
  eexists. rewrite (computeEV_result formatNum g o M MedianFallback HPre HP);
    [|now apply notPositive_gt]. cbn [fst]. repeat split.
Qed.

Lemma C4_median_fallback_witness :
  (exists M, estimatePool (Game.tiers cashOnly) = (Some M, MedianFallback) /\
             M = (1000 + 1200) / 2) /\
  (exists M, estimatePool (Game.tiers zeroOdds) = (Some M, MedianFallback) /\
             M = 3 * 10).
Proof.
  split.
  - destruct (C4_median_fallback noFormat cashOnly plain) as (M & HM & _).
    + left. intros t [<- | [<- | []]] (H & _); discriminate H.
    + exists (cash 100 40 30 60). repeat split. now left.
    + exists M. split; [exact HM|]. cbv in HM. now inversion HM.
  - destruct (C4_median_fallback noFormat zeroOdds plain) as (M & HM & _).
    + right. exists [], (ticket 0 5 10), [cash 100 10 3 3]. repeat split.
      intros t' [].
    + exists (cash 100 10 3 3). repeat split. right. now left.
    + exists M. split; [exact HM|]. cbv in HM. now inversion HM.
Defined.
End ScriptProofs.

(** ** scratchers.js: [computeOverview] and [renderTable] *)

Module ScratchersProofs.
Import Scratchers ScratchersSpec FloatFacts.

Section Engine.
Variable parseFloat : string -> float.

Lemma length_zero_nil {A} (l : list A) : Nat.eqb (List.length l) 0 = true -> l = [].
Proof. now destruct l. Qed.

(** What [computeOverview] returns, in one equation. *)
Lemma computeOverview_spec g o :
  computeOverview parseFloat g o =
  if unpriced g || degenerate parseFloat g then None
  else Some (overviewOf parseFloat o g).
Proof.
  unfold computeOverview, unpriced, degenerate, overviewOf, validOf, tiersOf.
  destruct (Game.price g) as [p|]; [|now destruct (Game.tiers g)].
  cbn [orNum]. unfold JS.or.
  destruct (Game.tiers g) as [ts|]; [|now destruct (JS.truthy p)].
  destruct (JS.truthy p); cbn [negb orb]; [|reflexivity].
  destruct (Nat.eqb (List.length ts) 0) eqn:E.
  - now rewrite (length_zero_nil _ E).
  - destruct (Nat.eqb (List.length (validTiers parseFloat p ts)) 0); reflexivity.
Qed.

(** C3. For every game the comparative engine accepts, with the valid
    tiers those of total > 0 and positive numeric odds: [M0] is the
    arithmetic mean over the valid tiers of [odds * total], [Mhat] is
    [M0 * (sum of remaining / sum of total)], the calculated odds are
    [Mhat / sum of remaining], claimed gross EV is the sum of
    [adjustedValue * total] divided by [M0], calculated gross EV the sum of
    [adjustedValue * remaining] divided by [Mhat], and each net EV is the
    gross EV minus the ticket price. *)
Theorem C3_mean_ratio (g : Game.t) (o : Options.t) (r : Overview.t) :
  computeOverview parseFloat g o = Some r ->
  exists price tiers valid M0 Mhat,
    Game.price g = Some price /\ Game.tiers g = Some tiers /\
    valid = filter
              (fun t => JS.gt (Resolved.total t) 0 && negb (JS.isNaN (Resolved.odds t))
                        && JS.gt (Resolved.odds t) 0)
              (map (resolve parseFloat price) tiers) /\
    M0 = mean (map (fun t => Resolved.odds t * Resolved.total t) valid) /\
    Mhat = M0 * (sumOver Resolved.remaining valid / sumOver Resolved.total valid) /\
    Overview.calcOddsVal r = Mhat / sumOver Resolved.remaining valid /\
    Overview.claimedEV r =
      sumOver (fun t => adjustValue (Resolved.rawValue t) (Resolved.isTicket t) o
                        * Resolved.total t) valid / M0 - price /\
    Overview.calcEV r =
      sumOver (fun t => adjustValue (Resolved.rawValue t) (Resolved.isTicket t) o
                        * Resolved.remaining t) valid / Mhat - price.
Proof.
  rewrite computeOverview_spec. unfold unpriced.
  destruct (Game.price g) as [p|] eqn:HP; [|discriminate].
  destruct (JS.truthy p) eqn:HT; [|discriminate]. cbn [negb orb].
  destruct (degenerate parseFloat g) eqn:HD; [discriminate|].
  intros H. inversion H; subst r; clear H.
  destruct (Game.tiers g) as [ts|] eqn:HTs.
  - exists p, ts. do 3 eexists. repeat (split; [reflexivity|]).
    unfold overviewOf, validOf, tiersOf. rewrite HP, HTs. cbn [orNum]. unfold JS.or.
    rewrite HT. repeat split.
  - unfold degenerate, validOf, tiersOf in HD. rewrite HTs in HD. discriminate.
Qed.

(** C6. For every game the comparative engine processes, the delta
    percent is [((calcNet - claimedNet) / |claimedNet|) * 100] when
    [claimedNet != 0] and exactly 0 when [claimedNet == 0]: with a claimed
    net EV of 0 it is 0, neither infinite nor [NaN]. *)
Theorem C6_delta_percent (g : Game.t) (o : Options.t) (r : Overview.t) :
  computeOverview parseFloat g o = Some r ->
  (JS.seq (Overview.claimedEV r) 0 = false ->
   Overview.deltaPercent r =
     ((Overview.calcEV r - Overview.claimedEV r) / abs (Overview.claimedEV r)) * 100) /\
  (JS.seq (Overview.claimedEV r) 0 = true ->
   Overview.deltaPercent r = 0 /\
   is_infinity (Overview.deltaPercent r) = false /\
   is_nan (Overview.deltaPercent r) = false).
Proof.
  rewrite computeOverview_spec.
  destruct (unpriced g || degenerate parseFloat g); [discriminate|].
  intros H. inversion H; subst r; clear H.
  cbn [overviewOf Overview.deltaPercent Overview.claimedEV Overview.calcEV].
  unfold delta, JS.sne, JS.seq. split; intros ->; cbn [negb]; repeat split.
Qed.

(** *** Batches *)

Lemma computeOverview_none g o :
  computeOverview parseFloat g o = None <->
  unpriced g = true \/ degenerate parseFloat g = true.
Proof.
  rewrite computeOverview_spec, <- orb_true_iff.
  destruct (unpriced g || degenerate parseFloat g); split; congruence.
Qed.

Lemma overviews_rows gs o :
  overviews parseFloat gs o = flat_map (rowOf parseFloat o) gs.
Proof.
  induction gs as [|g gs IH]; [reflexivity|]. cbn. unfold rowOf at 1.
  destruct (computeOverview parseFloat g o); now rewrite IH.
Qed.

Lemma rowOf_kept g o :
  unpriced g = false -> degenerate parseFloat g = false ->
  rowOf parseFloat o g = [overviewOf parseFloat o g].
Proof. intros HU HD. unfold rowOf. now rewrite computeOverview_spec, HU, HD. Qed.

Lemma rowOf_skipped g o :
  unpriced g = true \/ degenerate parseFloat g = true -> rowOf parseFloat o g = [].
Proof.
  intros H. apply (proj2 (computeOverview_none g o)) in H. unfold rowOf. now rewrite H.
Qed.

Lemma rows_all_kept gs o :
  (forall g, In g gs -> unpriced g = false /\ degenerate parseFloat g = false) ->
  flat_map (rowOf parseFloat o) gs = map (overviewOf parseFloat o) gs.
Proof.
  induction gs as [|g gs IH]; intros H; [reflexivity|]. cbn.
  destruct (H g) as [HU HD]; [now left|]. rewrite (rowOf_kept g o HU HD), IH; [reflexivity|].
  intros g' Hg'. apply H. now right.
Qed.

Lemma empty_tiers_degenerate g : Game.tiers g = Some [] -> degenerate parseFloat g = true.
Proof. intros H. unfold degenerate, validOf, tiersOf. now rewrite H. Qed.

(** C7 (amended). In batch mode a game produces no row exactly when it
    has no price the engine accepts (missing or zero), zero valid tiers,
    zero total tickets, zero remaining tickets or zero [M0]; it is skipped
    and every other game produces its row, in input order. The table shows
    these rows rearranged by the current sort. A batch of 5 games of which
    one has [tiers: []] and the other four are accepted yields exactly 4
    rows: those of the four, in input order before the sort. *)
Theorem C7_batch_skips (gs : list Game.t) (o : Options.t) :
  (forall g, computeOverview parseFloat g o = None <->
             unpriced g = true \/ degenerate parseFloat g = true) /\
  (forall l1 g l2, gs = l1 ++ g :: l2 ->
     overviews parseFloat gs o =
     overviews parseFloat l1 o ++ rowOf parseFloat o g ++ overviews parseFloat l2 o) /\
  (forall st, State.gamesData st = gs ->
     Permutation (overviews parseFloat gs o) (renderTable parseFloat st o)) /\
  (forall l1 g l2,
     gs = l1 ++ g :: l2 -> List.length gs = 5%nat -> Game.tiers g = Some [] ->
     (forall g', In g' (l1 ++ l2) ->
                 unpriced g' = false /\ degenerate parseFloat g' = false) ->
     overviews parseFloat gs o = map (overviewOf parseFloat o) (l1 ++ l2) /\
     List.length (overviews parseFloat gs o) = 4%nat /\
     forall st, State.gamesData st = gs ->
                List.length (renderTable parseFloat st o) = 4%nat).
Proof.
  split; [intros g; apply computeOverview_none|].
  split; [|split].
  - intros l1 g l2 ->. rewrite !overviews_rows, flat_map_app. reflexivity.
  - intros st <-. unfold renderTable. apply sort_perm.
  - intros l1 g l2 -> HL HT HK.
    assert (HO : overviews parseFloat (l1 ++ g :: l2) o
                 = map (overviewOf parseFloat o) (l1 ++ l2)).
    { rewrite overviews_rows, flat_map_app. cbn [flat_map].
      rewrite (rowOf_skipped g o) by (right; now apply empty_tiers_degenerate).
      cbn [app]. rewrite <- flat_map_app. now apply rows_all_kept. }
    assert (HN : List.length (overviews parseFloat (l1 ++ g :: l2) o) = 4%nat).
    { rewrite HO, length_map, length_app. rewrite length_app in HL. cbn in HL. lia. }
    split; [exact HO|]. split; [exact HN|].
    intros st Hst. unfold renderTable. now rewrite sort_length, Hst.
Qed.

End Engine.

Lemma C7_batch_skips_witness :
  overviews noParse batch plain =
    map (overviewOf noParse plain) [springGreen; cashCrush; fireball; moneyMania] /\
  List.length (renderTable noParse (State.mk batch SortKey.calcEV 1) plain) = 4%nat.
Proof.
  destruct (proj2 (proj2 (proj2 (C7_batch_skips noParse batch plain)))
              [springGreen; cashCrush] noTiers [fireball; moneyMania]
              eq_refl eq_refl eq_refl) as (H1 & _ & H3).
  - intros g' [<- | [<- | [<- | [<- | []]]]]; split; reflexivity.
  - split; [exact H1 | exact (H3 (State.mk batch SortKey.calcEV 1) eq_refl)].
Defined.

(** The sentence on batches fails for a game with [price: 0]: it has a valid
    tier and tickets, and is skipped all the same. *)
Lemma C7_counterexample : ~ skippedIffDegenerate noParse freeGame plain.
Proof.
  intros [H _]. specialize (H eq_refl). discriminate H.
Qed.

Lemma C3_mean_ratio_witness :
  exists r, computeOverview noParse springGreen strict = Some r /\
            Overview.calcOddsVal r =
              (62257 * 147 + 12 * 732144) / 2 * ((137 + 646383) / (147 + 732144))
              / (137 + 646383).
Proof.
  eexists. split; [reflexivity|].
  destruct (C3_mean_ratio noParse springGreen strict _ eq_refl)
    as (p & ts & valid & M0 & Mhat & _ & Hts & -> & -> & -> & -> & _).
  inversion Hts; subst ts. reflexivity.
Defined.

Lemma C6_delta_percent_witness :
  exists r, computeOverview noParse breakEven plain = Some r /\
            Overview.claimedEV r = 0 /\ Overview.deltaPercent r = 0.
Proof.
  eexists. split; [reflexivity|]. split; [reflexivity|].
  exact (proj1 (proj2 (C6_delta_percent noParse breakEven plain _ eq_refl) eq_refl)).
Defined.

End ScratchersProofs.

(** ** Facts about strings *)

Module TextFacts.
Import TextSpec.
Local Open Scope string_scope.

Ltac each_char c := destruct c as [[] [] [] [] [] [] [] []].

Lemma lower_space c : JS.isSpace (JS.lower c) = JS.isSpace c.
Proof. each_char c; reflexivity. Qed.

Lemma lower_idem c : JS.lower (JS.lower c) = JS.lower c.
Proof. each_char c; reflexivity. Qed.

Lemma app_empty_r s : s ++ "" = s.
Proof. induction s; cbn; congruence. Qed.

Lemma app_assoc s1 s2 s3 : (s1 ++ s2) ++ s3 = s1 ++ (s2 ++ s3).
Proof. induction s1; cbn; congruence. Qed.

Lemma rev_app s1 s2 : JS.rev (s1 ++ s2) = JS.rev s2 ++ JS.rev s1.
Proof.
  induction s1 as [|c s1 IH]; cbn.
  - now rewrite app_empty_r.
  - now rewrite IH, app_assoc.
Qed.

Lemma rev_rev s : JS.rev (JS.rev s) = s.
Proof. induction s as [|c s IH]; cbn; [reflexivity|]. now rewrite rev_app, IH. Qed.

Lemma lower_app s1 s2 : JS.toLowerCase (s1 ++ s2) = JS.toLowerCase s1 ++ JS.toLowerCase s2.
Proof. induction s1; cbn; congruence. Qed.

Lemma lower_rev s : JS.toLowerCase (JS.rev s) = JS.rev (JS.toLowerCase s).
Proof. induction s as [|c s IH]; cbn; [reflexivity|]. now rewrite lower_app, IH. Qed.

Lemma lower_trimStart s : JS.toLowerCase (JS.trimStart s) = JS.trimStart (JS.toLowerCase s).
Proof.
  induction s as [|c s IH]; cbn; [reflexivity|]. rewrite lower_space.
  now destruct (JS.isSpace c).
Qed.

(** Trimming and lower-casing commute. *)
Lemma lower_trim s : JS.toLowerCase (JS.trim s) = JS.trim (JS.toLowerCase s).
Proof. unfold JS.trim. now rewrite lower_rev, lower_trimStart, lower_rev, lower_trimStart. Qed.

Lemma trimStart_spaces w s : allSpace w = true -> JS.trimStart (w ++ s) = JS.trimStart s.
Proof.
  induction w as [|c w IH]; cbn; [reflexivity|]. intros H.
  apply andb_true_iff in H as [-> H]. auto.
Qed.

Lemma allSpace_rev w : allSpace (JS.rev w) = allSpace w.
Proof.
  induction w as [|c w IH]; cbn; [reflexivity|].
  assert (A : forall a b, allSpace (a ++ b) = allSpace a && allSpace b).
  { induction a; intros; cbn; [reflexivity|]. now rewrite IHa, andb_assoc. }
  rewrite A, IH. cbn. rewrite andb_true_r. apply andb_comm.
Qed.

Lemma trimStart_allSpace w : allSpace w = true -> JS.trimStart w = "".
Proof.
  induction w as [|c w IH]; cbn; [reflexivity|]. intros H.
  apply andb_true_iff in H as [-> H]. auto.
Qed.

Lemma trimStart_cases s :
  (JS.trimStart s = "" /\ allSpace s = true) \/
  (exists w c r, s = w ++ String c r /\ allSpace w = true /\ JS.isSpace c = false /\
                 JS.trimStart s = String c r).
Proof.
  induction s as [|c s IH]; cbn.
  - now left.
  - destruct (JS.isSpace c) eqn:E; cbn.
    + destruct IH as [[H1 H2] | (w & c' & r & -> & Hw & Hc & Ht)].
      * now left.
      * right. exists (String c w), c', r. cbn. now rewrite E, Hw.
    + right. exists "", c, s. now cbn.
Qed.

(** White space around a string does not change what [trim] returns. *)
Lemma trim_spaces w1 s w2 :
  allSpace w1 = true -> allSpace w2 = true -> JS.trim (w1 ++ s ++ w2) = JS.trim s.
Proof.
  intros H1 H2. unfold JS.trim. rewrite trimStart_spaces by assumption.
  f_equal.
  destruct (trimStart_cases s) as [[Ht Hs] | (w & c & r & -> & Hw & Hc & Ht)].
  - rewrite Ht. replace (JS.trimStart (s ++ w2)) with ""; [reflexivity|].
    symmetry. rewrite trimStart_spaces by assumption. now apply trimStart_allSpace.
  - rewrite Ht. rewrite app_assoc, trimStart_spaces by assumption.
    cbn [append JS.trimStart]. rewrite Hc.
    change (String c (r ++ w2)) with (String c r ++ w2).
    rewrite rev_app, trimStart_spaces; [reflexivity|]. now rewrite allSpace_rev.
Qed.

Lemma prefix_spec a s : String.prefix a s = true <-> exists post, s = a ++ post.
Proof.
  revert s. induction a as [|c a IH]; intros s.
  - split; [intros _; exists s; reflexivity|]. intros _. now destruct s.
  - destruct s as [|c' s]; cbn.
    + split; [discriminate|]. intros (post & H). discriminate.
    + destruct (ascii_dec c c') as [->|Hc].
      * rewrite IH. split; intros (post & H); exists post; [now rewrite H|].
        now inversion H.
      * split; [discriminate|]. intros (post & H). congruence.
Qed.

(** [includes] finds exactly the substrings. *)
Lemma includes_spec sub s :
  JS.includes sub s = true <-> exists pre post, s = pre ++ sub ++ post.
Proof.
  induction s as [|c s IH]; cbn [JS.includes]; rewrite orb_true_iff, prefix_spec.
  - split.
    + intros [(post & H) | H]; [|discriminate]. exists "", post. exact H.
    + intros (pre & post & H). left. destruct pre; [now exists post|discriminate].
  - rewrite IH. split.
    + intros [(post & H) | (pre & post & H)].
      * exists "", post. exact H.
      * exists (String c pre), post. cbn. now rewrite H.
    + intros (pre & post & H). destruct pre as [|c' pre]; cbn in H.
      * left. now exists post.
      * right. inversion H. now exists pre, post.
Qed.

Lemma allChars_app p a b : allChars p (a ++ b) = allChars p a && allChars p b.
Proof. induction a; cbn; [reflexivity|]. now rewrite IHa, andb_assoc. Qed.

Lemma allChars_rev p s : allChars p (JS.rev s) = allChars p s.
Proof.
  induction s as [|c s IH]; cbn; [reflexivity|].
  rewrite allChars_app, IH. cbn. rewrite andb_true_r. apply andb_comm.
Qed.

Lemma rev_nonempty s : s <> "" -> JS.rev s <> "".
Proof. intros H E. apply H. rewrite <- (rev_rev s), E. reflexivity. Qed.

Lemma trimStart_head p s r :
  (forall c, p c = true -> JS.isSpace c = false) ->
  s <> "" -> allChars p s = true -> JS.trimStart (s ++ r) = s ++ r.
Proof.
  intros Hp Hs Ha. destruct s as [|c s]; [congruence|]. cbn in *.
  apply andb_true_iff in Ha as [Hc _]. now rewrite (Hp c Hc).
Qed.

(** A string that starts and ends outside white space is its own trim. *)
Lemma trim_id s : JS.trimStart s = s -> JS.trimStart (JS.rev s) = JS.rev s -> JS.trim s = s.
Proof. intros H1 H2. unfold JS.trim. now rewrite H1, H2, rev_rev. Qed.

Lemma numberChar_not_space c : numberChar c = true -> JS.isSpace c = false.
Proof. each_char c; cbv; congruence. Qed.

Lemma countChar_not_space c : countChar c = true -> JS.isSpace c = false.
Proof. each_char c; cbv; congruence. Qed.

Lemma lower_not_space c x : JS.lower c = x -> JS.isSpace x = false -> JS.isSpace c = false.
Proof. intros <-. now rewrite lower_space. Qed.

Lemma spaces_skip w r :
  w <> "" -> allSpace w = true -> JS.trimStart r = r -> JS.spaces (w ++ r) = Some r.
Proof.
  intros Hw Ha Hr. destruct w as [|c w]; [congruence|]. cbn in *.
  apply andb_true_iff in Ha as [-> Ha]. now rewrite trimStart_spaces, Hr.
Qed.

Lemma takeNumber_span d rest :
  allChars numberChar d = true -> startsWith numberChar rest = false ->
  JS.takeNumber (d ++ rest) = d.
Proof.
  intros Hd Hr. induction d as [|c d IH]; cbn [append allChars] in *.
  - destruct rest as [|c r]; [reflexivity|]. cbn [startsWith JS.takeNumber] in *.
    unfold numberChar in Hr. now rewrite Hr.
  - apply andb_true_iff in Hd as [Hc Hd]. cbn [JS.takeNumber].
    unfold numberChar in Hc. rewrite Hc. now rewrite IH.
Qed.

Lemma spanCount_span a rest :
  allChars countChar a = true -> startsWith countChar rest = false ->
  ScriptPage.spanCount (a ++ rest) = (a, rest).
Proof.
  intros Ha Hr. induction a as [|c a IH]; cbn [append allChars] in *.
  - destruct rest as [|c r]; [reflexivity|]. cbn [startsWith ScriptPage.spanCount] in *.
    unfold countChar in Hr. now rewrite Hr.
  - apply andb_true_iff in Ha as [Hc Ha]. cbn [ScriptPage.spanCount].
    unfold countChar in Hc. rewrite Hc. now rewrite IH.
Qed.

Lemma startsWith_spaces p w r :
  (forall c, p c = true -> JS.isSpace c = false) ->
  allSpace w = true -> startsWith p r = false -> startsWith p (w ++ r) = false.
Proof.
  intros Hp Hw Hr. destruct w as [|c w]; [exact Hr|]. cbn in *.
  apply andb_true_iff in Hw as [Hc _]. destruct (p c) eqn:E; [|reflexivity].
  rewrite (Hp c E) in Hc. discriminate.
Qed.

(** The pattern of the odds at the head of a text: the group is the run
    of digits, commas and dots after [1 in]. *)
Lemma oddsAt_shape w1 i n w2 d rest :
  w1 <> "" -> allSpace w1 = true -> w2 <> "" -> allSpace w2 = true ->
  JS.lower i = "i"%char -> JS.lower n = "n"%char ->
  d <> "" -> allChars numberChar d = true -> startsWith numberChar rest = false ->
  JS.oddsAt ("1" ++ w1 ++ String i (String n (w2 ++ d ++ rest))) = Some d.
Proof.
  intros Hw1 Ha1 Hw2 Ha2 Hi Hn Hd Hda Hr.
  cbn [append JS.oddsAt]. rewrite spaces_skip; try assumption.
  - rewrite Hi, Hn. cbn [Ascii.eqb Bool.eqb andb].
    rewrite spaces_skip; try assumption.
    + rewrite takeNumber_span by assumption. destruct d; [congruence | reflexivity].
    + apply trimStart_head with (p := numberChar); try assumption.
      apply numberChar_not_space.
  - cbn [JS.trimStart]. now rewrite (lower_not_space i "i"%char).
Qed.

Lemma matchOdds_head s g : JS.oddsAt s = Some g -> JS.matchOdds s = Some g.
Proof. intros H. destruct s; cbn [JS.matchOdds]; now rewrite H. Qed.

Lemma remainingAt_shape a w1 o f w2 b rest :
  a <> "" -> allChars countChar a = true ->
  w1 <> "" -> allSpace w1 = true -> w2 <> "" -> allSpace w2 = true ->
  JS.lower o = "o"%char -> JS.lower f = "f"%char ->
  b <> "" -> allChars countChar b = true -> startsWith countChar rest = false ->
  ScriptPage.remainingAt (a ++ w1 ++ String o (String f (w2 ++ b ++ rest))) = Some (a, b).
Proof.
  intros Ha Haa Hw1 Ha1 Hw2 Ha2 Ho Hf Hb Hba Hr. unfold ScriptPage.remainingAt.
  rewrite spanCount_span; try assumption.
  - rewrite spaces_skip; try assumption.
    + rewrite Ho, Hf. cbn [Ascii.eqb Bool.eqb andb].
      rewrite spaces_skip; try assumption.
      * rewrite spanCount_span by assumption. cbn [fst].
        destruct a; [congruence|]. destruct b; [congruence | reflexivity].
      * apply trimStart_head with (p := countChar); try assumption.
        apply countChar_not_space.
    + cbn [JS.trimStart]. now rewrite (lower_not_space o "o"%char).
  - destruct w1 as [|c w1]; [congruence|]. cbn in *.
    apply andb_true_iff in Ha1 as [Hc _]. destruct (countChar c) eqn:E; [|reflexivity].
    apply countChar_not_space in E. congruence.
Qed.

Lemma matchRemaining_head s m :
  ScriptPage.remainingAt s = Some m -> ScriptPage.matchRemaining s = Some m.
Proof. intros H. destruct s; cbn [ScriptPage.matchRemaining]; now rewrite H. Qed.






Lemma eqb_empty s : (s =? "")%string = true <-> s = "".
Proof. apply String.eqb_eq. Qed.





End TextFacts.

(** ** Facts about sums, halves and quotients of binary64 numbers *)

Module SignFacts.
Import RoundingFacts FloatFacts Order.

Lemma valid_emin s m e : valid_binary (S754_finite s m e) = true -> (emin <= e)%Z.
Proof.
  intros H. cbn [valid_binary] in H. unfold bounded in H.
  apply andb_true_iff in H as [H _].
  apply canonical_bounds in H. exact (proj1 H).
Qed.

(** The sum of two unsigned numbers is unsigned. *)
Lemma add_unsigned a b : unsigned a -> unsigned b -> unsigned (a + b).
Proof.
  unfold unsigned. rewrite add_spec.
  pose proof (Prim2SF_valid a) as Va. pose proof (Prim2SF_valid b) as Vb.
  intros [Ha | [(m & e & Ha) | Ha]] [Hb | [(m' & e' & Hb) | Hb]];
    rewrite Ha, Hb in *; unfold SF64add, SFadd; cbn [Bool.eqb];
    try (left; reflexivity);
    try (right; left; eexists; eexists; reflexivity);
    try (right; right; reflexivity).
  right. cbn [cond_Zopp]. apply valid_emin in Va, Vb.
  set (ez := Z.min e e').
  change (Z.pos (fst (shl_align m e ez)) + Z.pos (fst (shl_align m' e' ez)))%Z
    with (Z.pos (fst (shl_align m e ez) + fst (shl_align m' e' ez))).
  cbn [binary_normalize]. apply binary_round_signed. unfold ez. lia.
Qed.

Lemma Prim2SF_two : Prim2SF 2 = S754_finite false 4503599627370496 (-51).
Proof. reflexivity. Qed.

Lemma div_core_nonneg m1 e1 m2 e2 :
  (0 <= fst (fst (SFdiv_core_binary prec emax (Z.pos m1) e1 (Z.pos m2) e2)))%Z.
Proof.
  unfold SFdiv_core_binary.
  set (e' := Z.min _ _). set (s := (e1 - e2 - e')%Z).
  set (m' := match s with Z.pos _ => _ | Z0 => _ | Z.neg _ => _ end).
  assert (Hm : (0 <= m')%Z).
  { unfold m'. destruct s; try lia. apply Z.shiftl_nonneg. lia. }
  pose proof (Z.div_pos m' (Z.pos m2) Hm ltac:(lia)) as Hq.
  unfold Z.div in Hq. destruct (Z.div_eucl m' (Z.pos m2)) as [q r]. exact Hq.
Qed.

(** Halving an unsigned number gives an unsigned number. *)
Lemma half_unsigned a : unsigned a -> unsigned (a / 2).
Proof.
  unfold unsigned. rewrite div_spec, Prim2SF_two.
  intros [Ha | [(m & e & Ha) | Ha]]; rewrite Ha; unfold SF64div, SFdiv; cbn [xorb].
  - now left.
  - pose proof (div_core_nonneg m e 4503599627370496 (-51)) as H.
    destruct (SFdiv_core_binary _ _ _ _ _ _) as [[mz ez] lz]. cbn [fst] in H.
    now apply binary_round_aux_unsigned.
  - right. now right.
Qed.

(** An unsigned number fails the test [!M || M <= 0] exactly when it is 0. *)
Lemma unsigned_cases x :
  unsigned x -> is_nan x = false /\ (x <? 0) = false /\
                (negb (negb (is_nan x || is_zero x)) || (x <=? 0)) = (x =? 0).
Proof.
  intros H. split; [now apply unsigned_not_nan|].
  unfold is_nan, is_zero. rewrite !eqb_spec, ltb_spec, leb_spec.
  change (Prim2SF zero) with (S754_zero false). rewrite Prim2SF_zero.
  destruct H as [H | [(m & e & H) | H]]; rewrite H.
  - split; reflexivity.
  - split; [reflexivity|]. cbn. rewrite Z.compare_refl, Pos.compare_cont_refl. reflexivity.
  - split; reflexivity.
Qed.

Lemma finite_spec x :
  is_finite x = true -> (x =? 0) = false -> exists s m e, Prim2SF x = S754_finite s m e.
Proof.
  unfold is_finite, is_infinity, is_nan. rewrite !eqb_spec, abs_spec.
  change (Prim2SF infinity) with (S754_infinity false). rewrite Prim2SF_zero.
  destruct (Prim2SF x) as [s|s| |s m e]; cbn; try discriminate.
  - destruct s; discriminate.
  - intros _ _. now exists s, m, e.
Qed.

(** A finite number other than zero divided by itself is 1. *)
Lemma div_self_finite x : is_finite x = true -> (x =? 0) = false -> x / x = 1.
Proof.
  intros F Z. destruct (finite_spec x F Z) as (s & m & e & H).
  apply Prim2SF_inj. rewrite div_spec, Prim2SF_one, H. apply SFdiv_self.
Qed.

(** The relative change of a finite number other than zero to itself is 0. *)
Lemma drift_self x :
  is_finite x = true -> (x =? 0) = false -> (x - x) / abs x * 100 = 0.
Proof.
  intros F Z. destruct (finite_spec x F Z) as (s & m & e & H).
  apply Prim2SF_inj. rewrite mul_spec, div_spec, sub_spec, abs_spec, H.
  unfold SF64sub, SFsub. rewrite Z.sub_diag. reflexivity.
Qed.

End SignFacts.

(** ** The parsing helpers of the two scripts *)

Module ParsingProofs.
Import TextSpec TextFacts FloatFacts.
Import Script ScriptPage.
Local Open Scope string_scope.

Section Parsing.
Variable parseFloat : string -> float.
Variable parseInt : string -> float.

(** X1. [isTicketTier] does not look at the case of the label: two
    labels that are equal once lower-cased are classified alike, in both
    scripts. *)
Theorem ticket_label_case (a b : string) :
  JS.toLowerCase a = JS.toLowerCase b ->
  Script.isTicketTier a = Script.isTicketTier b /\
  Scratchers.isTicketTier a = Scratchers.isTicketTier b.
Proof.
  intros H. unfold Script.isTicketTier, Scratchers.isTicketTier.
  now rewrite !lower_trim, H.
Qed.


(** X3. [isTicketTier] answers [true] exactly for the labels that,
    trimmed and lower-cased, are [ticket] or contain [free ticket]: the
    test [s === 'free ticket'] adds nothing to the two others. *)
Theorem ticket_label_shape (l : string) :
  Script.isTicketTier l = true <->
  JS.toLowerCase (JS.trim l) = "ticket" \/
  exists pre post, JS.toLowerCase (JS.trim l) = pre ++ "free ticket" ++ post.
Proof.
  unfold Script.isTicketTier. rewrite !orb_true_iff, !String.eqb_eq, includes_spec.
  split.
  - intros [[H | H] | H]; [now left | | now right].
    right. exists "", "". exact H.
  - intros [H | H]; [left; now left | now right].
Qed.


Lemma trim_tail body d :
  JS.trimStart (body ++ d) = body ++ d ->
  d <> "" -> allChars numberChar d = true \/ allChars countChar d = true ->
  JS.trim (body ++ d) = body ++ d.
Proof.
  intros Hs Hd Ha. apply trim_id; [exact Hs|]. rewrite rev_app.
  destruct Ha as [Ha | Ha].
  - apply trimStart_head with (p := numberChar).
    + apply numberChar_not_space.
    + now apply rev_nonempty.
    + now rewrite allChars_rev.
  - apply trimStart_head with (p := countChar).
    + apply countChar_not_space.
    + now apply rev_nonempty.
    + now rewrite allChars_rev.
Qed.

Lemma trim_pattern w0 body d w3 :
  JS.trimStart (body ++ d) = body ++ d ->
  d <> "" -> allChars numberChar d = true \/ allChars countChar d = true ->
  allSpace w0 = true -> allSpace w3 = true ->
  JS.trim (w0 ++ (body ++ d) ++ w3) = body ++ d.
Proof.
  intros Hs Hd Ha H0 H3. rewrite trim_spaces by assumption. now apply trim_tail.
Qed.

Lemma matchOdds_shape (w1 w2 d : string) (i n : ascii) :
  w1 <> "" -> allSpace w1 = true -> w2 <> "" -> allSpace w2 = true ->
  JS.lower i = "i"%char -> JS.lower n = "n"%char ->
  d <> "" -> allChars numberChar d = true ->
  JS.matchOdds ("1" ++ w1 ++ String i (String n (w2 ++ d))) = Some d.
Proof.
  intros. apply matchOdds_head. rewrite <- (app_empty_r d) at 1. now apply oddsAt_shape.
Qed.

Lemma trim_odds (w0 w1 w2 w3 d : string) (i n : ascii) :
  allSpace w0 = true -> allSpace w3 = true ->
  d <> "" -> allChars numberChar d = true ->
  JS.trim (w0 ++ ("1" ++ w1 ++ String i (String n (w2 ++ d))) ++ w3) =
  "1" ++ w1 ++ String i (String n (w2 ++ d)).
Proof.
  intros H0 H3 Hd Hda.
  pose proof (trim_pattern w0 ("1" ++ w1 ++ String i (String n w2)) d w3) as T.
  replace (("1" ++ w1 ++ String i (String n w2)) ++ d)
    with ("1" ++ w1 ++ String i (String n (w2 ++ d))) in T.
  - apply T; try assumption; [reflexivity | now left].
  - cbn [append]. f_equal. rewrite app_assoc. reflexivity.
Qed.

Lemma matchRemaining_shape (w1 w2 a b : string) (o f : ascii) :
  w1 <> "" -> allSpace w1 = true -> w2 <> "" -> allSpace w2 = true ->
  JS.lower o = "o"%char -> JS.lower f = "f"%char ->
  a <> "" -> allChars countChar a = true ->
  b <> "" -> allChars countChar b = true ->
  matchRemaining (a ++ w1 ++ String o (String f (w2 ++ b))) = Some (a, b).
Proof.
  intros. apply matchRemaining_head.
  rewrite <- (app_empty_r b) at 1. now apply remainingAt_shape.
Qed.

Lemma trim_remaining (w0 w1 w2 w3 a b : string) (o f : ascii) :
  allSpace w0 = true -> allSpace w3 = true ->
  a <> "" -> allChars countChar a = true ->
  b <> "" -> allChars countChar b = true ->
  JS.trim (w0 ++ (a ++ w1 ++ String o (String f (w2 ++ b))) ++ w3) =
  a ++ w1 ++ String o (String f (w2 ++ b)).
Proof.
  intros H0 H3 Ha Haa Hb Hba.
  pose proof (trim_pattern w0 (a ++ w1 ++ String o (String f w2)) b w3) as T.
  replace ((a ++ w1 ++ String o (String f w2)) ++ b)
    with (a ++ w1 ++ String o (String f (w2 ++ b))) in T.
  - apply T; try assumption; [|now right].
    apply trimStart_head with (p := countChar); try assumption.
    apply countChar_not_space.
  - rewrite !app_assoc. reflexivity.
Qed.

Lemma truthy_nonempty d : d <> "" -> negb (JS.truthyValue (JS.Str d)) = false.
Proof. intros H. destruct d; [congruence | reflexivity]. Qed.

Lemma truthy_pattern x y z : negb (JS.truthyValue (JS.Str (x ++ ("1" ++ y) ++ z))) = false.
Proof. now destruct x. Qed.

(** X5. On a text [1 in N], with any white space around it and
    between its words, [in] in either case, and [N] a run of digits,
    commas and dots, [parseOdds] returns what [parseFloat] reads in [N]
    without its commas, in both scripts. *)
Theorem odds_one_in (w0 w1 w2 w3 d : string) (i n : ascii) :
  allSpace w0 = true -> allSpace w3 = true ->
  w1 <> "" -> allSpace w1 = true -> w2 <> "" -> allSpace w2 = true ->
  JS.lower i = "i"%char -> JS.lower n = "n"%char ->
  d <> "" -> allChars numberChar d = true ->
  Script.parseOdds parseFloat
    (JS.Str (w0 ++ ("1" ++ w1 ++ String i (String n (w2 ++ d))) ++ w3)) =
    parseFloat (JS.stripCurrency d) /\
  Scratchers.parseOdds parseFloat
    (JS.Str (w0 ++ ("1" ++ w1 ++ String i (String n (w2 ++ d))) ++ w3)) =
    parseFloat (JS.stripCurrency d).
Proof.
  intros H0 H3 Hw1 Ha1 Hw2 Ha2 Hi Hn Hd Hda.
  unfold Script.parseOdds, Scratchers.parseOdds.
  rewrite truthy_pattern, trim_odds, matchOdds_shape by assumption.
  unfold Script.parseCurrency, Scratchers.parseCurrency.
  now rewrite truthy_nonempty.
Qed.


(** X7. On a text [X of Y], with any white space around it and
    between its words, [of] in either case, and [X] and [Y] runs of
    digits and commas, [parseRemainingOfTotal] returns the two counts:
    what [parseInt] reads in [X] and in [Y] without their commas. *)
Theorem remaining_of_total (w0 w1 w2 w3 a b : string) (o f : ascii) :
  allSpace w0 = true -> allSpace w3 = true ->
  w1 <> "" -> allSpace w1 = true -> w2 <> "" -> allSpace w2 = true ->
  JS.lower o = "o"%char -> JS.lower f = "f"%char ->
  a <> "" -> allChars countChar a = true ->
  b <> "" -> allChars countChar b = true ->
  parseRemainingOfTotal parseInt
    (w0 ++ (a ++ w1 ++ String o (String f (w2 ++ b))) ++ w3) =
  Some {| Counts.remaining := parseInt (removeCommas a);
          Counts.total := parseInt (removeCommas b) |}.
Proof.
  intros. unfold parseRemainingOfTotal.
  now rewrite trim_remaining, matchRemaining_shape.
Qed.

Lemma or_not_nan a b : JS.isNaN b = false -> JS.isNaN (JS.or a b) = false.
Proof.
  intros H. unfold JS.or, JS.truthy. destruct (is_nan a) eqn:E; cbn [orb negb]; [exact H|].
  destruct (is_zero a); cbn [negb]; [exact H | exact E].
Qed.

(** X8. The game [collectManualInput] builds: its ticket price is
    never [NaN] (an unreadable price is 0); it has at most one tier per
    row of the form; every tier has a label, counts that are not [NaN]
    (a missing total is the remaining count), the ticket flag of its
    label, and the value [NaN] when it is a ticket tier. *)
Theorem form_tiers_wellformed (form : Form.t) :
  JS.isNaN (Game.ticketPrice (collectManualInput parseFloat parseInt form)) = false /\
  (List.length (Game.tiers (collectManualInput parseFloat parseInt form))
     <= List.length (Form.rows form))%nat /\
  Forall (fun t => Tier.prize t <> "" /\
                   JS.isNaN (Tier.remaining t) = false /\
                   JS.isNaN (Tier.total t) = false /\
                   Tier.isTicket t = isTicketTier (Tier.prize t) /\
                   (Tier.isTicket t = true -> JS.isNaN (Tier.value t) = true))
    (Game.tiers (collectManualInput parseFloat parseInt form)).
Proof.
  cbn [collectManualInput Game.ticketPrice Game.tiers]. split; [|split].
  - now apply or_not_nan.
  - induction (Form.rows form) as [|row rows IH]; cbn [collectRows List.length]; [lia|].
    destruct (collectRow _ _ row); cbn [List.length]; lia.
  - induction (Form.rows form) as [|row rows IH]; cbn [collectRows]; [constructor|].
    destruct (collectRow parseFloat parseInt row) as [t|] eqn:E; [|exact IH].
    constructor; [|exact IH]. unfold collectRow in E.
    destruct (negb _ || _) eqn:G; [discriminate|]. inversion E; subst t; clear E.
    apply orb_false_iff in G as [G1 G2]. cbn [Tier.prize Tier.remaining Tier.total
      Tier.isTicket Tier.value].
    split; [|split; [exact G2 | split; [|split; [reflexivity|]]]].
    + intros H. rewrite H in G1. discriminate.
    + destruct (JS.isNaN (parseInt (Row.total row))) eqn:T; assumption.
    + intros ->. reflexivity.
Qed.

(** X9. The tiers the table loop of [parseCalotteryHtml] pushes all
    have odds that are not [NaN], the ticket flag of their label, and the
    value [NaN] when they are ticket tiers. *)
Theorem scraped_tiers_wellformed (tables : list (list (list string))) :
  Forall (fun t => JS.isNaN (Tier.odds t) = false /\
                   Tier.isTicket t = isTicketTier (Tier.prize t) /\
                   (Tier.isTicket t = true -> JS.isNaN (Tier.value t) = true))
    (tableTiers parseFloat parseInt tables).
Proof.
  unfold tableTiers. induction tables as [|rows tables IH]; cbn [flat_map]; [constructor|].
  apply Forall_app. split; [|exact IH]. clear IH.
  induction rows as [|cells rows IH]; cbn [tableRows]; [constructor|].
  destruct (tableRow parseFloat parseInt cells) as [t|] eqn:E; [|exact IH].
  constructor; [|exact IH]. unfold tableRow in E.
  destruct cells as [|c0 [|c1 [|c2 more]]]; try discriminate.
  destruct (parseRemainingOfTotal _ _); [|discriminate].
  destruct (negb _) eqn:G; [|discriminate]. inversion E; subst t; clear E.
  cbn [Tier.odds Tier.isTicket Tier.prize Tier.value]. apply negb_true_iff in G.
  split; [exact G|]. split; [reflexivity|]. intros ->. reflexivity.
Qed.

End Parsing.

Lemma ticket_label_case_witness :
  Script.isTicketTier "FREE Ticket" = Script.isTicketTier "free ticket" /\
  Scratchers.isTicketTier "FREE Ticket" = Scratchers.isTicketTier "free ticket".
Proof. apply (ticket_label_case "FREE Ticket" "free ticket"). reflexivity. Defined.



Lemma odds_one_in_witness :
  Script.parseOdds decimal (JS.Str " 1  IN 1,234 ") = 1234%float /\
  Scratchers.parseOdds decimal (JS.Str " 1  IN 1,234 ") = 1234%float.
Proof.
  apply (odds_one_in decimal " " "  " " " " " "1,234" "I" "N");
    try reflexivity; discriminate.
Defined.


Lemma remaining_of_total_witness :
  parseRemainingOfTotal decimal "646,383 of 732,144" =
  Some {| Counts.remaining := 646383%float; Counts.total := 732144%float |}.
Proof.
  apply (remaining_of_total decimal "" " " " " "" "646,383" "732,144" "o" "f");
    try reflexivity; discriminate.
Defined.


End ParsingProofs.

(** ** script.js: the title of a scraped page *)

Module TitleProofs.
Import TextSpec TextFacts ScriptTitle.
Local Open Scope string_scope.














End TitleProofs.

(** ** script.js: what [computeEV] depends on and what it writes *)

Module EngineProofs.
Import Script ScriptSpec EngineSpec ScriptPage.
Import FloatFacts SignFacts ScriptProofs.

Section Engine.
Variable formatNum : float -> string.

Lemma unadjusted_row i1 d1 r1 i2 d2 r2 M t :
  unadjusted (tierResult formatNum i1 d1 r1 M t) =
  unadjusted (tierResult formatNum i2 d2 r2 M t).
Proof. reflexivity. Qed.

(** X11. The options reach nothing but the adjusted values. Under any
    two settings of the options [computeEV] leaves the same game object,
    fails with the same message or succeeds in both cases, and then
    reports the same [M], method and price and, row by row, the same
    label, value, odds, counts, implied pool and probability. *)
Theorem options_leave_estimate (g : Game.t) (o1 o2 : Options.t) :
  snd (computeEV formatNum g o1) = snd (computeEV formatNum g o2) /\
  (forall e, fst (computeEV formatNum g o1) = Error e <->
             fst (computeEV formatNum g o2) = Error e) /\
  (forall r1 r2,
     fst (computeEV formatNum g o1) = Result r1 ->
     fst (computeEV formatNum g o2) = Result r2 ->
     EVResult.M r1 = EVResult.M r2 /\
     EVResult.method r1 = EVResult.method r2 /\
     EVResult.ticketPrice r1 = EVResult.ticketPrice r2 /\
     map unadjusted (EVResult.tiers r1) = map unadjusted (EVResult.tiers r2)).
Proof.
  destruct (computeEV_cases formatNum g o1) as [[P E1] | [(P & N & E1) | (M & m & P & HE & N & E1)]].
  - rewrite E1, (computeEV_missing formatNum g o2 P). cbn [fst snd].
    repeat split; try tauto; discriminate.
  - rewrite E1, (computeEV_failure formatNum g o2 P N). cbn [fst snd].
    repeat split; try tauto; discriminate.
  - rewrite E1, (computeEV_result formatNum g o2 M m P HE N). cbn [fst snd].
    split; [reflexivity|]. split; [split; discriminate|].
    intros r1 r2 H1 H2. inversion H1; inversion H2; subst r1 r2; clear H1 H2.
    cbn [resultOf EVResult.M EVResult.method EVResult.ticketPrice EVResult.tiers].
    repeat split. rewrite !map_map. apply map_ext. intros t. apply unadjusted_row.
Qed.

(** X13. What [computeEV] writes into the game it is given: nothing
    when the precondition fails; otherwise the value of each ticket tier,
    set to the ticket price, and nothing else. Name, number, price, odds
    texts, and the label, flag, odds and counts of every tier stay. *)
Theorem game_after_call (g : Game.t) (o : Options.t) :
  Game.name (snd (computeEV formatNum g o)) = Game.name g /\
  Game.number (snd (computeEV formatNum g o)) = Game.number g /\
  Game.ticketPrice (snd (computeEV formatNum g o)) = Game.ticketPrice g /\
  Game.claimedOdds (snd (computeEV formatNum g o)) = Game.claimedOdds g /\
  Game.claimedCashOdds (snd (computeEV formatNum g o)) = Game.claimedCashOdds g /\
  Forall2 (fun t t' =>
             t' = if precondition g && Tier.isTicket t
                  then Tier.setValue t (Game.ticketPrice g) else t)
    (Game.tiers g) (Game.tiers (snd (computeEV formatNum g o))).
Proof.
  assert (F : forall b, Forall2 (fun t t' => t' = if b && Tier.isTicket t
                              then Tier.setValue t (Game.ticketPrice g) else t)
                (Game.tiers g)
                (if b then resolveTicketValues (Game.ticketPrice g) (Game.tiers g)
                 else Game.tiers g)).
  { intros b. destruct b; cbn [andb].
    - unfold resolveTicketValues. induction (Game.tiers g); cbn [map]; constructor; auto.
    - induction (Game.tiers g); constructor; auto. }
  destruct (computeEV_cases formatNum g o) as [[P E] | [(P & N & E) | (M & m & P & HE & N & E)]];
    rewrite E; cbn [snd]; rewrite P; repeat split; try apply (F false); apply (F true).
Qed.

Lemma one_minus_zero : 1 - 0 / 100 = 1.
Proof. reflexivity. Qed.

Lemma adjust_zero_rate i r t : adjust i true 0 t = adjust i false r t.
Proof.
  unfold adjust. cbn [andb]. rewrite one_minus_zero, mul_one_r.
  now destruct (negb (Tier.isTicket t) && JS.gt _ 0).
Qed.

Lemma adjustValue_zero_rate i r v b :
  Scratchers.adjustValue v b (Scratchers.Options.mk i true 0) =
  Scratchers.adjustValue v b (Scratchers.Options.mk i false r).
Proof.
  unfold Scratchers.adjustValue.
  cbn [Scratchers.Options.applyTax Scratchers.Options.taxRate
       Scratchers.Options.ignoreUnder500 andb].
  rewrite one_minus_zero, mul_one_r.
  now destruct (negb b && JS.gt _ 0).
Qed.

(** X14. A tax rate of 0 is no tax: with the rate 0, [computeEV] with
    the tax option on returns what it returns with the option off,
    whatever the rate then. *)
Theorem zero_rate_is_no_tax (g : Game.t) (i : bool) (r : float) :
  computeEV formatNum g (Options.mk i true 0) =
  computeEV formatNum g (Options.mk i false r).
Proof.
  destruct (computeEV_cases formatNum g (Options.mk i true 0))
    as [[P E] | [(P & N & E) | (M & m & P & HE & N & E)]]; rewrite E.
  - now rewrite computeEV_missing.
  - now rewrite computeEV_failure.
  - rewrite (computeEV_result formatNum g _ M m P HE N). f_equal. f_equal.
    unfold resultOf. cbn [Options.ignoreUnder500 Options.applyTax Options.taxRate].
    assert (T : forall t, tierResult formatNum i true 0 M t = tierResult formatNum i false r M t).
    { intros t. unfold tierResult. now rewrite adjust_zero_rate with (r := r). }
    rewrite (map_ext _ _ T).
    rewrite (map_ext (fun t => TierResult.evContribution (tierResult formatNum i true 0 M t))
                     (fun t => TierResult.evContribution (tierResult formatNum i false r M t)));
      [reflexivity|]. intros t. now rewrite T.
Qed.

Lemma sameCounts_anchor t1 t2 :
  sameCounts t1 t2 -> usableAnchor t1 = usableAnchor t2 /\ anchored t1 = anchored t2 /\
                      usableEstimate t1 = usableEstimate t2.
Proof.
  intros (H1 & H2 & H3 & H4). unfold usableAnchor, usableEstimate, anchored.
  now rewrite H1, H2, H3, H4.
Qed.

Lemma sameCounts_methodA l1 l2 : Forall2 sameCounts l1 l2 -> methodA l1 = methodA l2.
Proof.
  intros H. unfold methodA. induction H as [|t1 t2 l1 l2 Ht H IH]; [reflexivity|].
  cbn [find]. destruct (sameCounts_anchor _ _ Ht) as (E1 & E2 & _). rewrite <- E1.
  destruct (usableAnchor t1); [|exact IH]. unfold anchored in E2. now rewrite E2.
Qed.

Lemma sameCounts_estimates l1 l2 :
  Forall2 sameCounts l1 l2 -> tierEstimates l1 = tierEstimates l2.
Proof.
  intros H. unfold tierEstimates. induction H as [|t1 t2 l1 l2 Ht H IH]; [reflexivity|].
  cbn [filter]. destruct (sameCounts_anchor _ _ Ht) as (_ & _ & E3). rewrite <- E3.
  destruct Ht as (_ & H2 & H3 & _).
  destruct (usableEstimate t1); [|exact IH].
  cbn [map]. f_equal; [now rewrite H2, H3 | exact IH].
Qed.

Lemma sameCounts_pool l1 l2 :
  Forall2 sameCounts l1 l2 -> estimatePool l1 = estimatePool l2.
Proof.
  intros H. unfold estimatePool, methodB.
  now rewrite (sameCounts_methodA _ _ H), (sameCounts_estimates _ _ H).
Qed.

Lemma sameCounts_resolved p l1 l2 :
  Forall2 sameCounts l1 l2 ->
  map Tier.remaining (resolveTicketValues p l1) = map Tier.remaining (resolveTicketValues p l2).
Proof.
  induction 1 as [|t1 t2 l1 l2 Ht H IH]; [reflexivity|]. cbn [resolveTicketValues map].
  fold (resolveTicketValues p l1). fold (resolveTicketValues p l2). rewrite IH.
  f_equal. destruct Ht as (_ & _ & H3 & _).
  now destruct (Tier.isTicket t1), (Tier.isTicket t2).
Qed.

Lemma probabilities_of o p l M m :
  map TierResult.probability (EVResult.tiers (resultOf formatNum o p l M m)) =
  map (fun x => x / M) (map Tier.remaining l).
Proof. cbn [resultOf EVResult.tiers]. rewrite !map_map. reflexivity. Qed.

(** X12. The prize values and labels reach nothing of the estimate.
    Two games with the same price whose tiers agree, one by one, on the
    ticket flag, the odds and the two counts get the same pool estimate;
    [computeEV] fails on both with the same message or succeeds on both,
    and then reports the same [M], method and probabilities. *)
Theorem values_leave_estimate (g1 g2 : Game.t) (o : Options.t) :
  Game.ticketPrice g1 = Game.ticketPrice g2 ->
  Forall2 sameCounts (Game.tiers g1) (Game.tiers g2) ->
  estimatePool (Game.tiers g1) = estimatePool (Game.tiers g2) /\
  (forall e, fst (computeEV formatNum g1 o) = Error e <->
             fst (computeEV formatNum g2 o) = Error e) /\
  (forall r1 r2,
     fst (computeEV formatNum g1 o) = Result r1 ->
     fst (computeEV formatNum g2 o) = Result r2 ->
     EVResult.M r1 = EVResult.M r2 /\
     EVResult.method r1 = EVResult.method r2 /\
     map TierResult.probability (EVResult.tiers r1) =
     map TierResult.probability (EVResult.tiers r2)).
Proof.
  intros HP HT. pose proof (sameCounts_pool _ _ HT) as HE.
  split; [exact HE|].
  assert (HPre : precondition g2 = precondition g1).
  { unfold precondition. now rewrite HP, (Forall2_length HT). }
  destruct (computeEV_cases formatNum g1 o)
    as [[P E1] | [(P & N & E1) | (M & m & P & HM & N & E1)]]; rewrite E1.
  - rewrite computeEV_missing by congruence. cbn [fst].
    split; [tauto|]. discriminate.
  - rewrite computeEV_failure by congruence. cbn [fst].
    split; [tauto|]. discriminate.
  - rewrite (computeEV_result formatNum g2 o M m) by congruence. cbn [fst].
    split; [split; discriminate|].
    intros r1 r2 H1 H2. inversion H1; inversion H2; subst r1 r2; clear H1 H2.
    rewrite !probabilities_of, (sameCounts_resolved _ _ _ HT), HP. repeat split.
Qed.


(** The median fallback *)
Lemma nth_unsigned l i : (i < List.length l)%nat -> Forall Order.unsigned l ->
  Order.unsigned (nth i l nan).
Proof.
  intros Hi HF. rewrite Forall_forall in HF. apply HF. now apply nth_In.
Qed.

Lemma middle_unsigned s : s <> [] -> Forall Order.unsigned s -> Order.unsigned (middle s).
Proof.
  intros HN HF. unfold middle.
  assert (L : (0 < List.length s)%nat) by (destruct s; [congruence | cbn; lia]).
  pose proof (Nat.div_lt (List.length s) 2 L ltac:(lia)) as D.
  destruct (Nat.eqb _ 0).
  - apply half_unsigned, add_unsigned; apply nth_unsigned; try assumption; lia.
  - now apply nth_unsigned.
Qed.

Lemma odd_mod2 n : Nat.odd n = true -> Nat.eqb (Nat.modulo n 2) 0 = false.
Proof.
  intros H. rewrite <- even_mod2. unfold Nat.odd in H. now apply negb_true_iff in H.
Qed.

(** X15. When the anchor gives no positive [M] and some tier has a
    positive remaining count and positive odds, the median fallback
    gives an [M] that is never [NaN] and never negative. [computeEV]
    then fails exactly when that [M] is 0 and succeeds with it
    otherwise. With an odd number of such tiers, [M] is [remaining *
    odds] of one of them. *)
Theorem median_fallback_sign (g : Game.t) (o : Options.t) :
  precondition g = true ->
  notPositive (anchorEstimate (Game.tiers g)) = true ->
  tierEstimates (Game.tiers g) <> [] ->
  exists M,
    estimatePool (Game.tiers g) = (Some M, MedianFallback) /\
    JS.isNaN M = false /\ JS.lt M 0 = false /\
    (JS.seq M 0 = true -> fst (computeEV formatNum g o) = Error EstimationFailure) /\
    (JS.seq M 0 = false ->
     exists r, fst (computeEV formatNum g o) = Result r /\
               EVResult.M r = M /\ EVResult.method r = MedianFallback) /\
    (Nat.odd (List.length (tierEstimates (Game.tiers g))) = true ->
     exists t, In t (Game.tiers g) /\ usableEstimate t = true /\
               M = Tier.remaining t * Tier.odds t).
Proof.
  intros HPre HA HN.
  set (s := JS.sort (fun a b => a - b) (tierEstimates (Game.tiers g))).
  assert (HP : Permutation (tierEstimates (Game.tiers g)) s) by apply sort_perm.
  assert (HU : Forall Order.unsigned s).
  { eapply Permutation_Forall; [exact HP | apply tierEstimates_unsigned]. }
  assert (HS : s <> []).
  { intros E. rewrite E in HP. apply Permutation_sym, Permutation_nil in HP. contradiction. }
  assert (HE : estimatePool (Game.tiers g) = (Some (middle s), MedianFallback)).
  { unfold estimatePool, methodB. fold (anchorEstimate (Game.tiers g)). rewrite HA.
    destruct (tierEstimates (Game.tiers g)) eqn:E; [congruence | reflexivity]. }
  destruct (unsigned_cases _ (middle_unsigned s HS HU)) as (U1 & U2 & U3).
  exists (middle s). split; [exact HE|]. split; [exact U1|]. split; [exact U2|].
  split; [|split].
  - intros Z. rewrite computeEV_failure; [reflexivity | exact HPre|].
    rewrite HE. cbn [fst notPositive]. unfold JS.truthy, JS.le. now rewrite U3.
  - intros Z. eexists. rewrite (computeEV_result formatNum g o _ _ HPre HE).
    + cbn [fst]. repeat split.
    + cbn [notPositive]. unfold JS.truthy, JS.le. now rewrite U3.
  - intros HO. unfold middle. rewrite (Permutation_length HP) in HO.
    rewrite (odd_mod2 _ HO).
    assert (L : (0 < List.length s)%nat) by (destruct s; [congruence | cbn; lia]).
    pose proof (Nat.div_lt (List.length s) 2 L ltac:(lia)) as D.
    pose proof (nth_In s nan D) as HI.
    apply (Permutation_in _ (Permutation_sym HP)) in HI.
    unfold tierEstimates in HI. apply in_map_iff in HI as (t & Ht & Hf).
    apply filter_In in Hf as [Hf1 Hf2]. exists t. now repeat split.
Qed.

Lemma band_closed v :
  JS.gt (if JS.gt v 0 && JS.lt v 500 then 0 else v) 0
  && JS.lt (if JS.gt v 0 && JS.lt v 500 then 0 else v) 500 = false.
Proof. destruct (JS.gt v 0 && JS.lt v 500) eqn:E; [reflexivity | exact E]. Qed.

(** X25. With the option to ignore prizes under $500 on and the tax
    option off, no tier other than a ticket tier counts with an adjusted
    value strictly between 0 and 500, in the rows of [computeEV] and in
    [adjustValue] of the overview alike. *)
Theorem small_prizes_dropped (g : Game.t) (taxRate v rate : float) (r : EVResult.t) :
  fst (computeEV formatNum g (Options.mk true false taxRate)) = Result r ->
  Forall (fun tr => TierResult.isTicket tr = false ->
                    JS.gt (TierResult.adjustedValue tr) 0
                    && JS.lt (TierResult.adjustedValue tr) 500 = false)
    (EVResult.tiers r) /\
  JS.gt (Scratchers.adjustValue v false (Scratchers.Options.mk true false rate)) 0
  && JS.lt (Scratchers.adjustValue v false (Scratchers.Options.mk true false rate)) 500
  = false.
Proof.
  intros H. split; [|apply band_closed].
  destruct (computeEV_cases formatNum g (Options.mk true false taxRate))
    as [[P E] | [(P & N & E) | (M & m & P & HM & N & E)]]; rewrite E in H;
    cbn [fst] in H; try discriminate.
  inversion H; subst r; clear H. cbn [resultOf EVResult.tiers].
  apply Forall_forall. intros tr Hin. apply in_map_iff in Hin as (t & <- & _).
  cbn [tierResult TierResult.isTicket TierResult.adjustedValue Options.ignoreUnder500
       Options.applyTax Options.taxRate]. intros HT. unfold adjust. rewrite HT.
  cbn [negb andb]. apply band_closed.
Qed.

End Engine.

Lemma small_prizes_dropped_witness :
  exists r,
    fst (computeEV noFormat springGreenCheap (Options.mk true false 24)) = Result r /\
    map TierResult.adjustedValue (EVResult.tiers r) = [0; 2]%float /\
    Forall (fun tr => TierResult.isTicket tr = false ->
                      JS.gt (TierResult.adjustedValue tr) 0
                      && JS.lt (TierResult.adjustedValue tr) 500 = false)
      (EVResult.tiers r).
Proof.
  eexists. split; [reflexivity|]. split; [reflexivity|].
  exact (proj1 (small_prizes_dropped noFormat springGreenCheap 24 0 0 _ eq_refl)).
Defined.

Lemma values_leave_estimate_witness :
  estimatePool (Game.tiers springGreen) = estimatePool (Game.tiers springGreenCheap).
Proof.
  apply (values_leave_estimate noFormat springGreen springGreenCheap plain);
    [reflexivity|]. repeat constructor.
Defined.

Lemma median_fallback_sign_witness :
  exists M, estimatePool (Game.tiers cashOnly) = (Some M, MedianFallback) /\
            JS.isNaN M = false /\ JS.lt M 0 = false.
Proof.
  destruct (median_fallback_sign noFormat cashOnly plain) as (M & H1 & H2 & H3 & _);
    [reflexivity | reflexivity | discriminate |].
  exists M. exact (conj H1 (conj H2 H3)).
Defined.


End EngineProofs.

(** ** script.js: the calc button and the recalculation *)

Module PageProofs.
Import Script ScriptSpec EngineSpec ScriptPage.
Import FloatFacts ScriptProofs.

Section Handlers.
Variable formatNum : float -> string.
Variable parseFloat : string -> float.
Variable parseInt : string -> float.


Lemma recalculate_showing g M m c p :
  precondition g = true -> estimatePool (Game.tiers g) = (Some M, m) ->
  notPositive (Some M) = false -> resolved g = g ->
  showing formatNum g M m p ->
  showing formatNum g M m (recalculate formatNum parseFloat c p).
Proof.
  intros P HE N R [L _]. unfold recalculate. rewrite L.
  rewrite (computeEV_result formatNum g (getOptions parseFloat c) M m P HE N), R.
  cbn [renderResults]. split; [reflexivity|]. exists (getOptions parseFloat c).
  cbn [Page.screen]. rewrite <- resolved_tiers, R. reflexivity.
Qed.

Lemma changes_showing g M m cs : forall p,
  precondition g = true -> estimatePool (Game.tiers g) = (Some M, m) ->
  notPositive (Some M) = false -> resolved g = g ->
  showing formatNum g M m p ->
  showing formatNum g M m
    (fold_left (fun p c => recalculate formatNum parseFloat c p) cs p).
Proof.
  induction cs as [|c cs IH]; intros p P HE N R S; cbn [fold_left]; [exact S|].
  apply IH; try assumption. now apply recalculate_showing.
Qed.

Lemma recalculate_failing g c p :
  precondition g = true -> notPositive (fst (estimatePool (Game.tiers g))) = true ->
  resolved g = g ->
  Page.lastGame p = Some g ->
  Page.lastGame (recalculate formatNum parseFloat c p) = Some g /\
  Page.screen (recalculate formatNum parseFloat c p) = Some (ErrorScreen EstimationFailure).
Proof.
  intros P N R L. unfold recalculate. rewrite L.
  rewrite (computeEV_failure formatNum g (getOptions parseFloat c) P N), R. now split.
Qed.

(** X18. Once a click on the calc button has put results on screen,
    recalculating after any number of changes of the controls keeps
    results of the same game on screen, with the same [M], the same
    method and the same rows but for the adjusted value and the EV
    contribution; and once it has shown the estimation failure, every
    recalculation shows it again. *)
Theorem recalculate_keeps_estimate (form : Form.t) (controls : Controls.t)
    (page : Page.t) (changes : list Controls.t) :
  (forall g r,
     Page.screen (calcClick formatNum parseFloat parseInt form controls page)
       = Some (ResultScreen g r) ->
     exists r',
       Page.screen
         (fold_left (fun p c => recalculate formatNum parseFloat c p) changes
            (calcClick formatNum parseFloat parseInt form controls page))
         = Some (ResultScreen g r') /\
       EVResult.M r' = EVResult.M r /\
       EVResult.method r' = EVResult.method r /\
       map unadjusted (EVResult.tiers r') = map unadjusted (EVResult.tiers r)) /\
  (Page.screen (calcClick formatNum parseFloat parseInt form controls page)
     = Some (ErrorScreen EstimationFailure) ->
   Page.screen
     (fold_left (fun p c => recalculate formatNum parseFloat c p) changes
        (calcClick formatNum parseFloat parseInt form controls page))
     = Some (ErrorScreen EstimationFailure)).
Proof.
  unfold calcClick.
  set (game := collectManualInput parseFloat parseInt form).
  destruct (JS.truthy (Game.ticketPrice game)) eqn:T; cbn [negb].
  2:{ cbn [Page.screen]. split; [intros g r H | intros H]; discriminate. }
  destruct (Nat.eqb (List.length (Game.tiers game)) 0) eqn:L.
  { cbn [Page.screen]. split; [intros g r H | intros H]; discriminate. }
  assert (P : precondition game = true) by (unfold precondition; now rewrite T, L).
  assert (P' : precondition (resolved game) = true) by now rewrite precondition_resolved.
  assert (R : resolved (resolved game) = resolved game) by apply resolved_idem.
  assert (HE' : estimatePool (Game.tiers (resolved game)) = estimatePool (Game.tiers game)).
  { rewrite resolved_tiers. apply estimatePool_resolve. }
  destruct (computeEV_cases formatNum game (getOptions parseFloat controls))
    as [[Q E] | [(_ & N & E) | (M & m & _ & HE & N & E)]]; [congruence | |];
    rewrite E; cbn [renderResults].
  - split; [intros g r H; discriminate|]. intros _.
    assert (F : forall cs p, Page.lastGame p = Some (resolved game) ->
                Page.screen p = Some (ErrorScreen EstimationFailure) ->
                Page.screen
                  (fold_left (fun p c => recalculate formatNum parseFloat c p) cs p) =
                Some (ErrorScreen EstimationFailure)).
    { induction cs as [|c cs IH]; intros p Lp Sp; cbn [fold_left]; [exact Sp|].
      destruct (recalculate_failing (resolved game) c p P') as [L1 L2];
        try assumption; [now rewrite HE'|]. now apply IH. }
    now apply F.
  - split; [|intros H; discriminate]. intros g r H. cbn [Page.screen] in H.
    inversion H; subst g r; clear H.
    destruct (changes_showing (resolved game) M m changes
                {| Page.lastGame := Some (resolved game);
                   Page.screen := Some (ResultScreen (resolved game)
                     (resultOf formatNum (getOptions parseFloat controls)
                        (Game.ticketPrice game)
                        (resolveTicketValues (Game.ticketPrice game) (Game.tiers game))
                        M m)) |})
      as [_ [o' S]]; try assumption.
    + now rewrite HE'.
    + split; [reflexivity|]. now exists (getOptions parseFloat controls).
    + eexists. split; [exact S|]. cbn [resultOf EVResult.M EVResult.method EVResult.tiers].
      repeat split. rewrite !map_map. reflexivity.
Qed.

(** X19. The tax rate [getOptions] returns is never [0] and never [NaN],
    on either page: a field whose text parses to [0] or to [NaN] gives
    the rate 24. *)
Theorem tax_rate_default (controls : Controls.t) (controls' : ScratchersPage.Controls.t) :
  JS.truthy (Options.taxRate (getOptions parseFloat controls)) = true /\
  (JS.truthy (parseFloat (Controls.taxRate controls)) = false ->
   Options.taxRate (getOptions parseFloat controls) = 24) /\
  JS.truthy (Scratchers.Options.taxRate
               (ScratchersPage.getOptions parseFloat controls')) = true /\
  (JS.truthy (parseFloat (ScratchersPage.Controls.taxRate controls')) = false ->
   Scratchers.Options.taxRate (ScratchersPage.getOptions parseFloat controls') = 24).
Proof.
  cbn [getOptions ScratchersPage.getOptions Options.taxRate Scratchers.Options.taxRate].
  unfold JS.or.
  destruct (JS.truthy (parseFloat (Controls.taxRate controls))) eqn:E1,
           (JS.truthy (parseFloat (ScratchersPage.Controls.taxRate controls'))) eqn:E2;
    repeat split; try assumption; try reflexivity; discriminate.
Qed.

End Handlers.

End PageProofs.

(** ** script.js and scratchers.js: the sign of an amount of money *)

Module FormatProofs.
Import FloatFacts.

Lemma abs_opp x : abs (- x) = abs x.
Proof.
  apply Prim2SF_inj. rewrite !abs_spec, opp_spec. now destruct (Prim2SF x).
Qed.

Lemma abs_pos x : (0 <? x) = true -> abs x = x.
Proof.
  rewrite ltb_spec, Prim2SF_zero. intros H. apply Prim2SF_inj. rewrite abs_spec.
  destruct (Prim2SF x) as [s|s| |s m e]; try destruct s; try discriminate; reflexivity.
Qed.

Lemma opp_pos_not_ge x : (0 <? x) = true -> (0 <=? - x) = false.
Proof.
  rewrite ltb_spec, leb_spec, opp_spec, Prim2SF_zero.
  destruct (Prim2SF x) as [s|s| |s m e]; try destruct s; try discriminate; reflexivity.
Qed.

Section Host.
Variable toFixed : float -> nat -> string.

(** X26. [formatMoney] of script.js drops the sign: an amount and its
    opposite give the same text. [renderResults] puts the sign back for
    the net EV and the EV contributions, and the text it prints is the
    one [formatMoney] of scratchers.js gives: for a positive amount [n],
    [+$] and [-$] before the digits of [n], for [n] and its opposite. *)
Theorem money_sign (n : float) (decimals : option nat) :
  ScriptFormat.formatMoney toFixed (- n) decimals =
    ScriptFormat.formatMoney toFixed n decimals /\
  ScriptFormat.signedMoney toFixed n = ScratchersFormat.formatMoney toFixed n /\
  ((0 <? n) = true ->
   ScratchersFormat.formatMoney toFixed n = ("+$" ++ toFixed n 4)%string /\
   ScratchersFormat.formatMoney toFixed (- n) = ("-$" ++ toFixed n 4)%string).
Proof.
  split; [|split].
  - unfold ScriptFormat.formatMoney. now rewrite abs_opp.
  - reflexivity.
  - intros H. unfold ScratchersFormat.formatMoney.
    rewrite abs_opp, (abs_pos n H), (ltb_leb _ _ H), (opp_pos_not_ge n H). now split.
Qed.

End Host.
End FormatProofs.

(** ** scratchers.js: the table and its controls *)

Module TableProofs.
Import Scratchers ScratchersSpec ScratchersPage TableSpec.
Import FloatFacts SignFacts ScratchersProofs.

Lemma insert_sorted {A} (P : A -> Prop) (le : A -> A -> Prop) (cmp : A -> A -> float) x l :
  (forall a b, P a -> P b -> JS.gt (cmp a b) 0 = true -> le b a) ->
  (forall a b, P a -> P b -> JS.gt (cmp a b) 0 = false -> le a b) ->
  (forall a b c, P a -> P b -> P c -> le a b -> le b c -> le a c) ->
  P x -> Forall P l -> StronglySorted le l -> StronglySorted le (JS.insert cmp x l).
Proof.
  intros H1 H2 HT Hx Hl Hs. induction Hs as [|y l Hs IH Hy]; cbn [JS.insert].
  - repeat constructor.
  - inversion Hl as [|? ? Py Pl]; subst.
    destruct (JS.gt (cmp x y) 0) eqn:E.
    + constructor; [now apply IH|].
      eapply Permutation_Forall; [apply insert_perm|]. constructor; [|exact Hy].
      now apply H1.
    + constructor; [now constructor|]. constructor; [now apply H2|].
      rewrite Forall_forall in *. intros z Hz.
      apply HT with y; auto.
Qed.

Lemma sort_sorted {A} (P : A -> Prop) (le : A -> A -> Prop) (cmp : A -> A -> float) l :
  (forall a b, P a -> P b -> JS.gt (cmp a b) 0 = true -> le b a) ->
  (forall a b, P a -> P b -> JS.gt (cmp a b) 0 = false -> le a b) ->
  (forall a b c, P a -> P b -> P c -> le a b -> le b c -> le a c) ->
  Forall P l -> StronglySorted le (JS.sort cmp l).
Proof.
  intros H1 H2 HT. induction 1 as [|x l Hx Hl IH]; cbn [JS.sort fold_right]; [constructor|].
  apply insert_sorted with (P := P); try assumption.
  eapply Permutation_Forall; [apply sort_perm | exact Hl].
Qed.

Lemma char_compare_trans (a b c : ascii) :
  match Ascii.compare a b, Ascii.compare b c with
  | Eq, x => Ascii.compare a c = x
  | x, Eq => Ascii.compare a c = x
  | Lt, Lt => Ascii.compare a c = Lt
  | Gt, Gt => Ascii.compare a c = Gt
  | _, _ => True
  end.
Proof.
  unfold Ascii.compare.
  destruct (N.compare_spec (N_of_ascii a) (N_of_ascii b)) as [E|E|E],
           (N.compare_spec (N_of_ascii b) (N_of_ascii c)) as [F|F|F]; try exact I.
  - rewrite E, F. apply N.compare_refl.
  - rewrite E. now apply N.compare_lt_iff.
  - rewrite E. now apply N.compare_gt_iff.
  - rewrite <- F. now apply N.compare_lt_iff.
  - apply N.compare_lt_iff. lia.
  - rewrite <- F. now apply N.compare_gt_iff.
  - apply N.compare_gt_iff. lia.
Qed.

(** The order of strings is transitive. *)
Lemma string_leb_trans (a : string) : forall b c,
  String.leb a b = true -> String.leb b c = true -> String.leb a c = true.
Proof.
  unfold String.leb.
  induction a as [|x a IH]; intros [|y b] [|z c]; cbn [String.compare]; try easy.
  pose proof (char_compare_trans x y z) as T.
  destruct (Ascii.compare x y), (Ascii.compare y z); try easy; rewrite T; try easy.
  apply IH.
Qed.

Lemma string_ltb_leb s t : String.ltb s t = true -> String.leb s t = true.
Proof. unfold String.ltb, String.leb. now destruct (String.compare s t). Qed.

Lemma string_ltb_false s t : String.ltb t s = false -> String.leb s t = true.
Proof.
  unfold String.ltb, String.leb. rewrite (String.compare_antisym s t).
  now destruct (String.compare t s).
Qed.

Lemma less_atMost va vb : less va vb = true -> atMost va vb.
Proof.
  destruct va as [|x|s], vb as [|y|t]; cbn; try discriminate.
  - apply ltb_leb.
  - apply string_ltb_leb.
Qed.

Lemma not_less_atMost k a b :
  comparable (sortValue k a) -> comparable (sortValue k b) ->
  less (sortValue k b) (sortValue k a) = false ->
  atMost (sortValue k a) (sortValue k b).
Proof.
  destruct k; cbn [sortValue comparable less atMost]; intros Ha Hb H;
    try (now apply ltb_false_leb); now apply string_ltb_false.
Qed.

Lemma atMost_trans va vb vc : atMost va vb -> atMost vb vc -> atMost va vc.
Proof.
  destruct va as [|x|s], vb as [|y|t], vc as [|z|u]; cbn; try easy.
  - apply leb_trans.
  - apply string_leb_trans.
Qed.

Section Table.
Variable parseFloat : string -> float.

Lemma sorted_up (k : SortKey.t) (rows : list Overview.t) :
  Forall (fun r => comparable (sortValue k r)) rows ->
  ascendingBy k (JS.sort (compareRows k 1) rows).
Proof.
  apply sort_sorted.
  - intros a b Pa Pb. unfold compareRows.
    destruct (less (sortValue k a) (sortValue k b)) eqn:E1; [discriminate|].
    destruct (less (sortValue k b) (sortValue k a)) eqn:E2; [|discriminate].
    intros _. now apply less_atMost.
  - intros a b Pa Pb. unfold compareRows.
    destruct (less (sortValue k a) (sortValue k b)) eqn:E1; [intros _; now apply less_atMost|].
    destruct (less (sortValue k b) (sortValue k a)) eqn:E2; [discriminate|].
    intros _. now apply not_less_atMost.
  - intros a b c _ _ _. apply atMost_trans.
Qed.

Lemma sorted_down (k : SortKey.t) (rows : list Overview.t) :
  Forall (fun r => comparable (sortValue k r)) rows ->
  descendingBy k (JS.sort (compareRows k (-1)) rows).
Proof.
  apply sort_sorted with (le := fun a b => atMost (sortValue k b) (sortValue k a)).
  - intros a b Pa Pb. unfold compareRows.
    destruct (less (sortValue k a) (sortValue k b)) eqn:E1; [intros _; now apply less_atMost|].
    destruct (less (sortValue k b) (sortValue k a)) eqn:E2; discriminate.
  - intros a b Pa Pb. unfold compareRows.
    destruct (less (sortValue k a) (sortValue k b)) eqn:E1; [discriminate|].
    intros _. now apply not_less_atMost.
  - intros a b c _ _ _ H1 H2. now apply atMost_trans with (sortValue k b).
Qed.

Lemma reachable_direction st :
  reachable st -> State.sortDir st = 1 \/ State.sortDir st = -1.
Proof.
  induction 1 as [|key st H IH|parsed st H IH].
  - now left.
  - unfold clickHeader. destruct (sameKey (State.sortKey st) key); cbn [State.sortDir].
    + destruct IH as [-> | ->]; [now right | now left].
    + destruct key; auto.
  - exact IH.
Qed.

(** X20. In every state the click and load handlers lead to, the
    direction is 1 or -1, and [renderTable] shows the rows of the
    computed overviews, all of them, in the order of the selected column:
    ascending when the direction is 1, descending when it is -1. Strings
    are compared lower-cased; the column must hold no [NaN]. *)
Theorem table_sorted (st : State.t) (o : Options.t) :
  reachable st ->
  Forall (fun r => comparable (sortValue (State.sortKey st) r))
    (overviews parseFloat (State.gamesData st) o) ->
  Permutation (overviews parseFloat (State.gamesData st) o) (renderTable parseFloat st o) /\
  ((State.sortDir st = 1 /\ ascendingBy (State.sortKey st) (renderTable parseFloat st o)) \/
   (State.sortDir st = -1 /\ descendingBy (State.sortKey st) (renderTable parseFloat st o))).
Proof.
  intros HR HC. split; [apply sort_perm|]. unfold renderTable.
  destruct (reachable_direction st HR) as [E | E]; rewrite E.
  - left. split; [reflexivity|]. now apply sorted_up.
  - right. split; [reflexivity|]. now apply sorted_down.
Qed.

Lemma sameKey_eq a b : sameKey a b = true -> a = b.
Proof. destruct a, b; cbn; congruence. Qed.

Lemma sameKey_refl a : sameKey a a = true.
Proof. now destruct a. Qed.

(** X21. In every state the handlers lead to, two clicks on the
    header of the selected column bring the state back. *)
Theorem double_click_restores (st : State.t) (key : SortKey.t) :
  reachable st -> sameKey (State.sortKey st) key = true ->
  clickHeader key (clickHeader key st) = st.
Proof.
  intros HR HK. apply sameKey_eq in HK. subst key.
  unfold clickHeader. rewrite sameKey_refl. cbn [State.sortKey State.gamesData State.sortDir].
  rewrite sameKey_refl. destruct (reachable_direction st HR) as [E | E];
    destruct st as [gs k d]; cbn [State.sortKey State.gamesData State.sortDir] in *;
    subst d; reflexivity.
Qed.

(** X22. The options reach nothing of a row of the overview but the
    two EVs and their drift: under any two settings the same games are
    skipped, and the rows agree on name, number, price, claimed odds and
    calculated odds. *)
Theorem options_leave_rows (gs : list Game.t) (o1 o2 : Options.t) :
  map unadjustedRow (overviews parseFloat gs o1) =
  map unadjustedRow (overviews parseFloat gs o2) /\
  (forall g, computeOverview parseFloat g o1 = None <->
             computeOverview parseFloat g o2 = None).
Proof.
  split.
  - induction gs as [|g gs IH]; [reflexivity|]. cbn [overviews].
    rewrite !computeOverview_spec.
    destruct (unpriced g || degenerate parseFloat g); [exact IH|].
    cbn [map]. now rewrite IH.
  - intros g. now rewrite !computeOverview_none.
Qed.

Lemma sumOver_ext (f h : Resolved.t -> float) l :
  (forall t, In t l -> f t = h t) -> sumOver f l = sumOver h l.
Proof.
  unfold sumOver. generalize 0. induction l as [|t l IH]; intros a H; [reflexivity|].
  cbn [fold_left]. rewrite (H t (or_introl eq_refl)). apply IH.
  intros t' Ht'. apply H. now right.
Qed.

Lemma adjusted_zero_rate i r t :
  adjusted (Options.mk i true 0) t = adjusted (Options.mk i false r) t.
Proof.
  unfold adjusted, adjustValue.
  cbn [Options.applyTax Options.taxRate Options.ignoreUnder500 andb].
  change (1 - 0 / 100) with 1. rewrite mul_one_r.
  now destruct (negb (Resolved.isTicket t) && JS.gt _ 0).
Qed.

(** X23. A tax rate of 0 is no tax in the overview either:
    [computeOverview] with the tax option on and the rate 0 returns what
    it returns with the option off. *)
Theorem zero_rate_overview (g : Game.t) (i : bool) (r : float) :
  computeOverview parseFloat g (Options.mk i true 0) =
  computeOverview parseFloat g (Options.mk i false r).
Proof.
  rewrite !computeOverview_spec. destruct (unpriced g || degenerate parseFloat g); [reflexivity|].
  f_equal. unfold overviewOf, claimedGross, calcGross.
  rewrite (sumOver_ext (fun t => adjusted (Options.mk i true 0) t * Resolved.total t)
                       (fun t => adjusted (Options.mk i false r) t * Resolved.total t))
    by (intros; now rewrite adjusted_zero_rate with (r := r)).
  rewrite (sumOver_ext (fun t => adjusted (Options.mk i true 0) t * Resolved.remaining t)
                       (fun t => adjusted (Options.mk i false r) t * Resolved.remaining t))
    by (intros; now rewrite adjusted_zero_rate with (r := r)).
  reflexivity.
Qed.

(** X24. For a game at launch, where every valid tier has as many
    prizes remaining as printed and the total is finite, the calculated
    EV is the claimed EV and the calculated odds are [M0] over the
    printed total; when that EV is finite the drift is 0 and the badge
    is the neutral one. *)
Theorem untouched_game_no_drift (g : Game.t) (o : Options.t) (r : Overview.t) :
  computeOverview parseFloat g o = Some r ->
  Forall (fun t => JS.seq (Resolved.remaining t) (Resolved.total t) = true)
    (validOf parseFloat g) ->
  is_finite (sumOver Resolved.total (validOf parseFloat g)) = true ->
  Overview.calcEV r = Overview.claimedEV r /\
  Overview.calcOddsVal r =
    launchPool (validOf parseFloat g) / sumOver Resolved.total (validOf parseFloat g) /\
  (is_finite (Overview.claimedEV r) = true ->
   Overview.deltaPercent r = 0 /\ badge r = ("badge-neutral"%string, ""%string)).
Proof.
  rewrite computeOverview_spec. intros H HF HT.
  destruct (unpriced g || degenerate parseFloat g) eqn:D; [discriminate|].
  inversion H; subst r; clear H.
  apply orb_false_iff in D as [_ D]. unfold degenerate in D.
  apply orb_false_iff in D as [D _]. apply orb_false_iff in D as [D _].
  apply orb_false_iff in D as [_ D]. unfold JS.seq in D.
  set (valid := validOf parseFloat g) in *.
  assert (HE : forall t, In t valid -> Resolved.remaining t = Resolved.total t).
  { intros t Ht. rewrite Forall_forall in HF. apply eqb_pos_eq; [now apply HF|].
    unfold valid, validOf, validTiers in Ht. apply filter_In in Ht as [_ Ht].
    unfold validTier, JS.gt in Ht. apply andb_true_iff in Ht as [Ht _].
    now apply andb_true_iff in Ht as [Ht _]. }
  assert (HR : sumOver Resolved.remaining valid = sumOver Resolved.total valid).
  { now apply sumOver_ext. }
  assert (HC : currentPool valid = launchPool valid).
  { unfold currentPool. rewrite HR, div_self_finite by assumption. apply mul_one_r. }
  assert (HG : calcGross o valid = claimedGross o valid).
  { unfold calcGross, claimedGross. rewrite HC. f_equal. apply sumOver_ext.
    intros t Ht. now rewrite HE. }
  unfold overviewOf. fold valid.
  cbn [Overview.calcEV Overview.claimedEV Overview.calcOddsVal Overview.deltaPercent].
  rewrite HG, HC, HR. split; [reflexivity|]. split; [reflexivity|].
  intros Fin.
  assert (Z : delta (claimedGross o valid - orNum (Game.price g) 0)
                (claimedGross o valid - orNum (Game.price g) 0) = 0).
  { unfold delta, JS.sne.
    destruct (claimedGross o valid - orNum (Game.price g) 0 =? 0) eqn:E; cbn [negb];
      [reflexivity|]. now apply drift_self. }
  split; [exact Z|]. unfold badge. cbn [Overview.deltaPercent]. rewrite Z. reflexivity.
Qed.

End Table.

Lemma table_sorted_witness :
  Permutation (overviews noParse batch plain)
    (renderTable noParse (loadJson (Many batch) State.initial) plain) /\
  ((State.sortDir (loadJson (Many batch) State.initial) = 1 /\
    ascendingBy SortKey.calcEV
      (renderTable noParse (loadJson (Many batch) State.initial) plain)) \/
   (State.sortDir (loadJson (Many batch) State.initial) = -1 /\
    descendingBy SortKey.calcEV
      (renderTable noParse (loadJson (Many batch) State.initial) plain))).
Proof.
  apply (table_sorted noParse (loadJson (Many batch) State.initial) plain).
  - apply reach_load, reach_initial.
  - repeat constructor.
Defined.

Lemma double_click_restores_witness :
  clickHeader SortKey.name (clickHeader SortKey.name (clickHeader SortKey.name State.initial))
  = clickHeader SortKey.name State.initial.
Proof.
  apply (double_click_restores (clickHeader SortKey.name State.initial) SortKey.name).
  - apply reach_click, reach_initial.
  - reflexivity.
Defined.

Lemma untouched_game_no_drift_witness :
  exists r, computeOverview noParse untouched plain = Some r /\
            Overview.calcEV r = Overview.claimedEV r.
Proof.
  eexists. split; [reflexivity|].
  apply (untouched_game_no_drift noParse untouched plain); [reflexivity | | reflexivity].
  repeat constructor.
Defined.

End TableProofs.

(** ** The embedding on the examples of the specification *)

Module Examples.
Import ScriptSpec.
Local Open Scope string_scope.

Example ticket_labels :
  map (Script.isTicketTier) ["Ticket"; "Free Ticket"; "free ticket bonus"; "$20"; ""] =
  [true; true; true; false; false].
Proof. reflexivity. Qed.

Example ticket_labels_overview :
  map (Scratchers.isTicketTier) ["Ticket"; " FREE ticket "; "2 free tickets"; "$20"; ""] =
  [true; true; true; false; false].
Proof. reflexivity. Qed.

Example odds_pattern :
  map JS.matchOdds ["1 in 4.25"; "1 in 1,234"; "Odds: 1  IN 12 overall"; "4.25"; ""] =
  [Some "4.25"; Some "1,234"; Some "12"; None; None].
Proof. reflexivity. Qed.

Example odds_text (parseFloat : string -> float) :
  Script.parseOdds parseFloat (JS.Str "1 in 1,234") = parseFloat "1234" /\
  Script.parseOdds parseFloat (JS.Str " 4.25 ") = parseFloat "4.25" /\
  Script.parseOdds parseFloat (JS.Num 4.25) = 4.25%float /\
  Script.parseOdds parseFloat (JS.Str "") = nan.
Proof. repeat split. Qed.

Example currency_text (parseFloat : string -> float) :
  Script.parseCurrency parseFloat (JS.Str "$1,000") = parseFloat "1000" /\
  Script.parseCurrency parseFloat (JS.Str "Ticket") = parseFloat "Ticket" /\
  Script.parseCurrency parseFloat (JS.Num 1000) = 1000%float.
Proof. repeat split. Qed.

(** Price 2, a $1000 tier (137 of 147, 1 in 62257) and a ticket tier
    (646383 of 732144, 1 in 12): the anchor gives [M0 = 8785728] and
    [M = 7756596]. *)
Example end_to_end :
  exists r,
    fst (Script.computeEV noFormat springGreen plain) = Script.Result r /\
    Script.EVResult.method r = Script.TicketAnchor /\
    (732144 * 12 = 8785728)%float /\
    Script.EVResult.M r = 7756596%float /\
    map Script.TierResult.probability (Script.EVResult.tiers r) =
      [137 / 7756596; 646383 / 7756596]%float /\
    map Script.TierResult.adjustedValue (Script.EVResult.tiers r) = [1000; 2]%float /\
    Script.EVResult.evGross r =
      (0 + 137 / 7756596 * 1000 + 646383 / 7756596 * 2)%float /\
    Script.EVResult.evNet r = (Script.EVResult.evGross r - 2)%float.
Proof. eexists. repeat split. Qed.

(** A tier list sorted by the comparator of the median fallback. *)
Example sorted_estimates :
  JS.sort (fun a b => a - b)%float [1200; 30; infinity; 1000; 30; 0]%float =
  [0; 30; 30; 1000; 1200; infinity]%float.
Proof. reflexivity. Qed.

End Examples.
